(** * The compat-shim checker [scripts/check_types_compat.py]

    A shallow embedding of the script and the proofs of its specification.

    Python text is modelled by [string], one [ascii] per code point, so the
    model covers text whose code points lie below 256.  Exceptions are an
    explicit error result; what the script prints is a list of lines carried
    along with the result. *)

From Stdlib Require Import String Ascii List ZArith Lia Bool DecimalString.
From Stdlib Require Import Permutation.
From Stdlib Require DecimalZ DecimalPos DecimalFacts.
Import ListNotations.

Local Open Scope Z_scope.
Local Open Scope list_scope.

(** ** Python values, exceptions and results *)

(** The values [tomllib.loads] builds.  Floats and dates are kept without
    their payload: the script only ever compares them with a string, which is
    false whatever they hold.  A dict is an association list in insertion
    order, read with the first binding of a key. *)
#[warnings="-register-all"]
Inductive pyval : Type :=
| PStr (s : string)
| PInt (z : Z)
| PBool (b : bool)
| PFloat
| PDateTime
| PList (items : list pyval)
| PDict (entries : list (string * pyval)).

Definition pydict := list (string * pyval).

(** What [Path.read_text] can raise. *)
Inductive read_error : Type :=
| FileNotFoundError
| PermissionError
| IsADirectoryError
| UnicodeDecodeError.

Inductive exn : Type :=
| SystemExit (message : string)
| ValueError (text : string)
| AttributeError
| TypeError
| KeyError (key : string)
| ReadError (e : read_error)
| TOMLDecodeError.

Inductive result (A : Type) : Type :=
| Ok (a : A)
| Raise (e : exn).

Arguments Ok {A} a.
Arguments Raise {A} e.

Definition rbind {A B : Type} (r : result A) (k : A -> result B) : result B :=
  match r with
  | Ok a => k a
  | Raise e => Raise e
  end.

Declare Scope result_scope.
Delimit Scope result_scope with result.
Notation "x <- r ;; k" := (rbind r (fun x => k))
  (at level 61, r at next level, right associativity) : result_scope.

(** A sequence is consumed left to right; the first exception ends it. *)
Fixpoint map_result {A B : Type} (f : A -> result B) (l : list A)
  : result (list B) :=
  match l with
  | [] => Ok []
  | a :: l' =>
      (b <- f a ;; bs <- map_result f l' ;; Ok (b :: bs))%result
  end.

(** ** Text primitives *)

Definition code (c : ascii) : nat := nat_of_ascii c.

Definition is_digit (c : ascii) : bool :=
  ((48 <=? code c) && (code c <=? 57))%nat.

Definition digit_value (c : ascii) : Z := Z.of_nat (code c) - 48.

(** The white space [int] skips: tab to carriage return, space, and U+0085
    and U+00A0, the two other code points below 256 that it turns into a
    space.  U+001C to U+001F are not skipped. *)
Definition is_int_space (c : ascii) : bool :=
  (((9 <=? code c) && (code c <=? 13)) || (code c =? 32)
   || (code c =? 133) || (code c =? 160))%nat.

Fixpoint lstrip (s : string) : string :=
  match s with
  | EmptyString => EmptyString
  | String c s' => if is_int_space c then lstrip s' else s
  end.

Definition take_sign (s : string) : bool * string :=
  match s with
  | String "+"%char r => (false, r)
  | String "-"%char r => (true, r)
  | _ => (false, s)
  end.

Definition starts_with_underscore (s : string) : bool :=
  match s with
  | String "_"%char _ => true
  | _ => false
  end.

(** Digits with single underscores between them.  [prev] tells whether the
    last character read was an underscore, [acc] is the value and [n] the
    number of digits read so far.  [None] is a doubled or trailing
    underscore. *)
Fixpoint scan_digits (s : string) (prev : bool) (acc : Z) (n : nat)
  : option (Z * nat * string) :=
  match s with
  | EmptyString => if prev then None else Some (acc, n, EmptyString)
  | String c r =>
      if is_digit c then scan_digits r false (10 * acc + digit_value c) (S n)
      else if Ascii.eqb c "_" then
        if prev then None else scan_digits r true acc n
      else if prev then None else Some (acc, n, s)
  end.

(** [value.split(sep)] for a one-character separator: never empty. *)
Fixpoint str_split (sep : ascii) (s : string) : list string :=
  match s with
  | EmptyString => [EmptyString]
  | String c r =>
      if Ascii.eqb c sep then EmptyString :: str_split sep r
      else match str_split sep r with
           | h :: t => String c h :: t
           | [] => [String c EmptyString]
           end
  end.

(** [sep.join(parts)] *)
Fixpoint str_join (sep : string) (parts : list string) : string :=
  match parts with
  | [] => EmptyString
  | [p] => p
  | p :: rest => (p ++ sep ++ str_join sep rest)%string
  end.

(** [needle in hay] on text. *)
Fixpoint str_contains (needle hay : string) : bool :=
  String.prefix needle hay
  || match hay with
     | EmptyString => false
     | String _ rest => str_contains needle rest
     end.

(** [str(n)] for an integer. *)
Definition str_of_int (z : Z) : string :=
  DecimalString.NilZero.string_of_int (Z.to_int z).

(** ** Tuples of integers and their comparison *)

Inductive cmp_op : Type := Py_LT | Py_LE | Py_EQ | Py_NE | Py_GT | Py_GE.

Definition int_richcompare (op : cmp_op) (x y : Z) : bool :=
  match op with
  | Py_LT => x <? y
  | Py_LE => x <=? y
  | Py_EQ => x =? y
  | Py_NE => negb (x =? y)
  | Py_GT => x >? y
  | Py_GE => x >=? y
  end.

(** Tuples compare by their first differing items; when there is none within
    the shorter one, by their lengths. *)
Fixpoint tuple_richcompare (op : cmp_op) (v w : list Z) : bool :=
  match v, w with
  | x :: v', y :: w' =>
      if x =? y then tuple_richcompare op v' w' else int_richcompare op x y
  | _, _ => int_richcompare op (Z.of_nat (length v)) (Z.of_nat (length w))
  end.

(** [max(items)]: the first of the greatest items. *)
Definition py_max (items : list (list Z)) : result (list Z) :=
  match items with
  | [] => Raise (ValueError "max() arg is an empty sequence")
  | first :: rest =>
      Ok (fold_left
            (fun maxitem item =>
               if tuple_richcompare Py_GT item maxitem then item else maxitem)
            rest first)
  end.

(** ** Files and the process *)

Inductive file_state : Type :=
| Missing
| Unreadable (e : read_error)
| Contents (text : string).

(** The two files the script looks at in its working directory. *)
Record world : Type := {
  lock_path : file_state;      (* Cargo.lock *)
  cargo_toml : file_state      (* Cargo.toml *)
}.

Definition path_exists (f : file_state) : bool :=
  match f with
  | Missing => false
  | _ => true
  end.

Definition read_text (f : file_state) : result string :=
  match f with
  | Missing => Raise (ReadError FileNotFoundError)
  | Unreadable e => Raise (ReadError e)
  | Contents text => Ok text
  end.

(** A computation that prints: the lines written to standard output, in
    order, and how it ended. *)
Definition io (A : Type) : Type := (list string * result A)%type.

Definition io_ret {A : Type} (a : A) : io A := ([], Ok a).

Definition io_bind {A B : Type} (m : io A) (k : A -> io B) : io B :=
  match m with
  | (out, Ok a) => let (out', r) := k a in (out ++ out', r)
  | (out, Raise e) => (out, Raise e)
  end.

Definition print (line : string) : io unit := ([line], Ok tt).

Definition lift {A : Type} (r : result A) : io A := ([], r).

Declare Scope io_scope.
Delimit Scope io_scope with io.
Notation "x <- m ;; k" := (io_bind m (fun x => k))
  (at level 61, m at next level, right associativity) : io_scope.
Notation "m ;; k" := (io_bind m (fun _ => k))
  (at level 61, right associativity) : io_scope.

(** What the operating system sees of a run. *)
Inductive stderr_output : Type :=
| Nothing
| Message (text : string)     (* the argument of an uncaught SystemExit *)
| Traceback (e : exn).        (* any other uncaught exception *)

Record process : Type := {
  stdout : list string;
  stderr : stderr_output;
  status : Z
}.

(** ** Dicts and iteration *)

Fixpoint dict_get (d : pydict) (key : string) : option pyval :=
  match d with
  | [] => None
  | (k, v) :: d' => if String.eqb k key then Some v else dict_get d' key
  end.

(** [d.get(key, default)] *)
Definition dict_get_default (d : pydict) (key : string) (default : pyval)
  : pyval :=
  match dict_get d key with
  | Some v => v
  | None => default
  end.

(** [for x in v]: a list gives its items, a dict its keys, a string its
    characters; nothing else built from TOML can be iterated. *)
Definition py_iter (v : pyval) : result (list pyval) :=
  match v with
  | PList items => Ok items
  | PDict entries => Ok (map (fun kv => PStr (fst kv)) entries)
  | PStr s =>
      Ok (map (fun c => PStr (String c EmptyString)) (list_ascii_of_string s))
  | _ => Raise TypeError
  end.

(** [pkg.get(key)]: only a dict has the method; [None] is Python's [None]. *)
Definition method_get (pkg : pyval) (key : string) : result (option pyval) :=
  match pkg with
  | PDict entries => Ok (dict_get entries key)
  | _ => Raise AttributeError
  end.

(** [pkg[key]] with a string key. *)
Definition subscript (pkg : pyval) (key : string) : result pyval :=
  match pkg with
  | PDict entries =>
      match dict_get entries key with
      | Some v => Ok v
      | None => Raise (KeyError key)
      end
  | _ => Raise TypeError
  end.

(** [v == s] for a string [s]. *)
Definition eq_str (v : option pyval) (s : string) : bool :=
  match v with
  | Some (PStr t) => String.eqb t s
  | _ => false
  end.

(** ** The script *)

Definition MIN_VERSION : list Z := [0; 4; 0].

Definition watched : string := "component-runtime".
Definition marker : string := "greentic-types-compat".

Definition nl : string := String (ascii_of_nat 10) EmptyString.

(** The message of the [SystemExit] that ends a run on a bad version. *)
Definition parse_error_message (value exc : string) : string :=
  ("unable to parse component-runtime version '" ++ value ++ "': " ++ exc)%string.

Section Script.

(** The interpreter and its library, as the script finds them. *)

(** [tomllib.loads]: the document as a dict, or [None] for a
    [TOMLDecodeError]. *)
Variable tomllib_loads : string -> option pydict.

(** [sys.get_int_max_str_digits()]: the longest digit string [int] converts,
    4300 unless configured otherwise; 0 lifts the limit. *)
Variable int_max_str_digits : nat.

(** The text of the [ValueError] that [int] raises for an argument. *)
Variable int_error_text : string -> string.

(** The limit is only looked at beyond 640 digits. *)
Definition exceeds_limit (digits : nat) : bool :=
  ((640 <? digits) && (0 <? int_max_str_digits)
   && (int_max_str_digits <? digits))%nat.

(** [int(s)] in base 10: white space, a sign, digits with single underscores
    between them, white space. *)
Definition py_int (s : string) : result Z :=
  let invalid := Raise (ValueError (int_error_text s)) in
  let (negative, body) := take_sign (lstrip s) in
  if starts_with_underscore body then invalid
  else
    match scan_digits body false 0 0%nat with
    | None => invalid
    | Some (magnitude, digits, rest) =>
        if (digits =? 0)%nat then invalid
        else if exceeds_limit digits then invalid
        else
          match lstrip rest with
          | EmptyString => Ok (if negative then - magnitude else magnitude)
          | String _ _ => invalid
          end
    end.

Definition parse_version (value : pyval) : result (list Z) :=
  match value with
  | PStr s =>
      match map_result py_int (str_split "." s) with
      | Ok parts => Ok parts
      | Raise (ValueError exc) =>
          Raise (SystemExit (parse_error_message s exc))
      | Raise e => Raise e
      end
  | _ => Raise AttributeError        (* no [split] on anything but text *)
  end.

(** [[pkg["version"] for pkg in packages
      if pkg.get("name") == "component-runtime"]] *)
Fixpoint select_versions (packages : list pyval) : result (list pyval) :=
  match packages with
  | [] => Ok []
  | pkg :: rest =>
      (name <- method_get pkg "name" ;;
       if eq_str name watched then
         ver <- subscript pkg "version" ;;
         vers <- select_versions rest ;;
         Ok (ver :: vers)
       else select_versions rest)%result
  end.

Definition comp_versions_of (data : pydict) : result (list pyval) :=
  (packages <- py_iter (dict_get_default data "package" (PList [])) ;;
   select_versions packages)%result.

Definition removal_message (version : list Z) : string :=
  ("component-runtime has reached "
   ++ str_join "." (map str_of_int version)
   ++ " but greentic-types-compat is still present." ++ nl
   ++ "Please drop the compat shim and migrate to greentic-types 0.3+ throughout.")%string.

Definition main (w : world) : io Z :=
  (if negb (path_exists (lock_path w)) then
     print "Cargo.lock not found; skipping compat shim check" ;;
     io_ret 0
   else
     text <- lift (read_text (lock_path w)) ;;
     data <- lift (match tomllib_loads text with
                   | Some d => Ok d
                   | None => Raise TOMLDecodeError
                   end) ;;
     comp_versions <- lift (comp_versions_of data) ;;
     match comp_versions with
     | [] =>
         print "component-runtime is not in Cargo.lock; skipping compat shim check" ;;
         io_ret 0
     | _ :: _ =>
         (* the highest version, in case several appear *)
         version <- lift (parsed <- map_result parse_version comp_versions ;;
                          py_max parsed)%result ;;
         manifest <- lift (read_text (cargo_toml w)) ;;
         let compat_present := str_contains marker manifest in
         if tuple_richcompare Py_GE version MIN_VERSION && compat_present then
           print (removal_message version) ;;
           io_ret 1
         else io_ret 0
     end)%io.

(** [sys.exit(main())]: the returned integer is the exit status; an uncaught
    [SystemExit] with a message prints it to standard error and exits with
    status 1, and so does, with a traceback, any other uncaught exception. *)
Definition run (w : world) : process :=
  match main w with
  | (out, Ok n) => {| stdout := out; stderr := Nothing; status := n mod 256 |}
  | (out, Raise (SystemExit message)) =>
      {| stdout := out; stderr := Message message; status := 1 |}
  | (out, Raise e) => {| stdout := out; stderr := Traceback e; status := 1 |}
  end.

End Script.

(** ** The vocabulary of the specification *)

(** The standard lexicographic order on sequences of integers: a proper
    prefix comes first, otherwise the first differing items decide. *)
Inductive lex_lt : list Z -> list Z -> Prop :=
| lex_lt_prefix : forall y w, lex_lt [] (y :: w)
| lex_lt_head : forall x y v w, x < y -> lex_lt (x :: v) (y :: w)
| lex_lt_tail : forall x v w, lex_lt v w -> lex_lt (x :: v) (x :: w).

Definition lex_le (v w : list Z) : Prop := lex_lt v w \/ v = w.

(** What each comparison operator means in that order. *)
Definition lex_holds (op : cmp_op) (v w : list Z) : Prop :=
  match op with
  | Py_LT => lex_lt v w
  | Py_LE => lex_le v w
  | Py_EQ => v = w
  | Py_NE => v <> w
  | Py_GT => lex_lt w v
  | Py_GE => lex_le w v
  end.

(** [m] is one of [ts] and none of them is above it. *)
Definition is_maximum (m : list Z) (ts : list (list Z)) : Prop :=
  In m ts /\ forall t, In t ts -> lex_le t m.

(** A segment that is a non-negative integer: decimal digits, at least one. *)
Fixpoint all_digits (s : string) : bool :=
  match s with
  | EmptyString => true
  | String c r => is_digit c && all_digits r
  end.

Definition is_number (s : string) : bool :=
  negb (String.eqb s EmptyString) && all_digits s.

(** The number a digit string denotes, by the weight of each position. *)
Fixpoint number_of (s : string) : Z :=
  match s with
  | EmptyString => 0
  | String c r => digit_value c * 10 ^ Z.of_nat (String.length r) + number_of r
  end.

(** A version string of dot-separated non-negative integers, and the
    sequence it denotes. *)
Definition dotted_numeric (v : string) : bool :=
  forallb is_number (str_split "." v).

Definition numbers (v : string) : list Z :=
  map number_of (str_split "." v).

(** Every segment is short enough for [int] under the given limit. *)
Definition within_limit (limit : nat) (v : string) : bool :=
  forallb (fun seg => negb (exceeds_limit limit (String.length seg)))
          (str_split "." v).

(** A version record of the lock file has text that [parse_version] turns
    into a tuple. *)
Definition parses (limit : nat) (text_of : string -> string) (v : string)
  : Prop :=
  exists t, parse_version limit text_of (PStr v) = Ok t.

(** The lock file is there, can be read and is the TOML document [data]. *)
Definition lock_loaded (loads : string -> option pydict) (w : world)
           (data : pydict) : Prop :=
  exists text, lock_path w = Contents text /\ loads text = Some data.

(** [pkg] is a package record with that name and version, whatever else it
    holds. *)
Definition is_record (pkg : pyval) (name version : string) : Prop :=
  exists entries,
    pkg = PDict entries
    /\ dict_get entries "name" = Some (PStr name)
    /\ dict_get entries "version" = Some (PStr version).

(** The document's package entries are records with these names and
    versions, in this order; a document without the entry lists none. *)
Definition lists_packages (data : pydict) (records : list (string * string))
  : Prop :=
  exists packages,
    dict_get_default data "package" (PList []) = PList packages
    /\ Forall2 (fun pkg r => is_record pkg (fst r) (snd r)) packages records.

(** The version strings of the records of the watched dependency. *)
Definition watched_versions (records : list (string * string)) : list string :=
  map snd (filter (fun r => String.eqb (fst r) watched) records).

(** ** Sample inputs *)

(** A parser known on finitely many texts; any other text is rejected. *)
Fixpoint loads_table (known : list (string * pydict)) (text : string)
  : option pydict :=
  match known with
  | [] => None
  | (t, d) :: rest => if String.eqb t text then Some d else loads_table rest text
  end.

(** The interpreter's default limit. *)
Definition default_max_str_digits : nat := 4300.

Definition invalid_literal (s : string) : string :=
  ("invalid literal for int() with base 10: '" ++ s ++ "'")%string.

Definition package (name version : string) : pyval :=
  PDict [("name"%string, PStr name); ("version"%string, PStr version)].

Definition lock_of (packages : list pyval) : pydict :=
  [("version"%string, PInt 3); ("package"%string, PList packages)].

Fixpoint repeat_string (n : nat) (s : string) : string :=
  match n with
  | O => EmptyString
  | S n' => (s ++ repeat_string n' s)%string
  end.

(** A non-negative integer of 4301 digits. *)
Definition long_number : string := repeat_string 4301 "1".

Definition manifest_with_shim : string :=
  ("[dependencies]" ++ nl ++ "greentic-types-compat = { path = 'compat' }")%string.

Definition manifest_without_shim : string :=
  ("[dependencies]" ++ nl ++ "greentic-types = '0.4'")%string.

(** The text and the document of a lock file with the given records. *)
Fixpoint lock_text (records : list (string * string)) : string :=
  match records with
  | [] => EmptyString
  | (name, version) :: rest =>
      ("[[package]]" ++ nl ++ "name = '" ++ name ++ "'" ++ nl
       ++ "version = '" ++ version ++ "'" ++ nl ++ lock_text rest)%string
  end.

Definition lock_data (records : list (string * string)) : pydict :=
  lock_of (map (fun r => package (fst r) (snd r)) records).

Definition records_single : list (string * string) :=
  [("anyhow", "1.0.86"); ("component-runtime", "0.4.0")]%string.

Definition records_double : list (string * string) :=
  [("component-runtime", "0.3.9"); ("serde", "1.0.203");
   ("component-runtime", "0.4.1")]%string.

Definition records_old : list (string * string) :=
  [("component-runtime", "0.3.9")]%string.

Definition records_bad : list (string * string) :=
  [("component-runtime", "0.3.9"); ("component-runtime", "0.x.0")]%string.

Definition records_other : list (string * string) :=
  [("anyhow", "1.0.86"); ("serde", "1.0.203")]%string.

Definition sample_loads : string -> option pydict :=
  loads_table
    (map (fun records => (lock_text records, lock_data records))
         [records_single; records_double; records_old; records_bad;
          records_other]).

Definition sample_world (records : list (string * string))
           (manifest : file_state) : world :=
  {| lock_path := Contents (lock_text records); cargo_toml := manifest |}.

(** ** Further vocabulary *)

(** The package entry is a record of the watched dependency: the test of the
    comprehension in [main]. *)
Definition is_watched_entry (entries : pydict) : bool :=
  eq_str (dict_get entries "name") watched.

(** Text made of the white space [int] skips. *)
Fixpoint all_space (s : string) : bool :=
  match s with
  | EmptyString => true
  | String c r => is_int_space c && all_space r
  end.

(** How often a character occurs in a text. *)
Fixpoint count_char (c : ascii) (s : string) : nat :=
  match s with
  | EmptyString => O
  | String c' r => ((if Ascii.eqb c' c then 1 else 0) + count_char c r)%nat
  end.

(** The outcome of a run that an exception ended. *)
Definition aborted (e : exn) : process :=
  {| stdout := []; stderr := Traceback e; status := 1 |}.

(** Lock documents with entries that are not full records. *)
Definition entries_without_version : list pydict :=
  [[("name"%string, PStr "component-runtime"); ("version"%string, PStr "0.x.0")];
   [("name"%string, PStr "component-runtime")]].

Definition entries_with_odd_neighbours : list pydict :=
  [[("checksum"%string, PStr "00")];
   [("name"%string, PStr "component-runtime"); ("version"%string, PStr "0.4.0")];
   [("name"%string, PInt 7)]].

Definition entries_plain : list pydict :=
  [[("name"%string, PStr "component-runtime"); ("version"%string, PStr "0.4.0")]].

Definition entries_with_number : list pydict :=
  [[("name"%string, PStr "component-runtime"); ("version"%string, PStr "0.3.9")];
   [("name"%string, PStr "component-runtime"); ("version"%string, PInt 4)]].

Definition entries_data (entries : list pydict) : pydict :=
  lock_of (map PDict entries).

(** The text of a lock file with these entries. *)
Definition value_text (v : pyval) : string :=
  match v with
  | PStr s => ("'" ++ s ++ "'")%string
  | PInt z => str_of_int z
  | _ => EmptyString
  end.

Fixpoint entry_lines (entries : pydict) : string :=
  match entries with
  | [] => EmptyString
  | (key, v) :: rest =>
      (key ++ " = " ++ value_text v ++ nl ++ entry_lines rest)%string
  end.

Fixpoint entries_text (entries : list pydict) : string :=
  match entries with
  | [] => EmptyString
  | d :: rest =>
      ("[[package]]" ++ nl ++ entry_lines d ++ entries_text rest)%string
  end.

Definition records_reversed : list (string * string) :=
  [("component-runtime", "0.4.1"); ("component-runtime", "0.3.9");
   ("serde", "1.0.203")]%string.

Definition more_loads : string -> option pydict :=
  loads_table
    (map (fun entries => (entries_text entries, entries_data entries))
         [entries_without_version; entries_with_odd_neighbours; entries_plain;
          entries_with_number]
     ++ map (fun records => (lock_text records, lock_data records))
            [records_double; records_reversed]).

Definition manifest_with_comment : string :=
  ("[dependencies]" ++ nl ++ "# greentic-types-compat was dropped in 0.4")%string.

(** ** Versions as text *)

(** The text of a version, as the removal message shows it. *)
Definition version_text (version : list Z) : string :=
  str_join "." (map str_of_int version).

(** The decimal digits of a positive number. *)
Definition digits_of (p : positive) : string :=
  NilEmpty.string_of_uint (Pos.to_uint p).

(** A non-negative integer written the usual way: digits with no zero in
    front, except for zero itself. *)
Definition canonical (s : string) : bool :=
  is_number s && (String.eqb s "0" || negb (String.prefix "0" s)).

Definition canonical_version (v : string) : bool :=
  forallb canonical (str_split "." v).

(** ** The order on tuples *)

Section TupleOrder.

Lemma lex_lt_irrefl (v : list Z) : ~ lex_lt v v.
Proof.
  induction v as [|x v IH]; intros H; inversion H; subst; auto; lia.
Qed.

Lemma lex_lt_trans (u v w : list Z) : lex_lt u v -> lex_lt v w -> lex_lt u w.
Proof.
  intros Huv; revert w.
  induction Huv as [y v|x y u v Hxy|x u v Huv IH]; intros w Hvw;
    inversion Hvw; subst.
  - constructor.
  - constructor.
  - apply lex_lt_head; lia.
  - apply lex_lt_head; assumption.
  - apply lex_lt_head; assumption.
  - apply lex_lt_tail; auto.
Qed.

Lemma lex_total (v w : list Z) : lex_lt v w \/ v = w \/ lex_lt w v.
Proof.
  revert w; induction v as [|x v IH]; intros [|y w].
  - auto.
  - left; constructor.
  - right; right; constructor.
  - destruct (Z.lt_total x y) as [Hlt|[->|Hgt]].
    + left; apply lex_lt_head; assumption.
    + destruct (IH w) as [H|[->|H]].
      * left; apply lex_lt_tail; assumption.
      * auto.
      * right; right; apply lex_lt_tail; assumption.
    + right; right; apply lex_lt_head; assumption.
Qed.

Lemma lex_le_refl (v : list Z) : lex_le v v.
Proof. right; reflexivity. Qed.

Lemma lex_le_trans (u v w : list Z) : lex_le u v -> lex_le v w -> lex_le u w.
Proof.
  intros [Huv| ->] [Hvw| ->]; unfold lex_le; eauto using lex_lt_trans.
Qed.

Lemma lex_le_antisym (v w : list Z) : lex_le v w -> lex_le w v -> v = w.
Proof.
  intros [Hvw| ->] [Hwv|Heq]; auto.
  exfalso; apply (lex_lt_irrefl v); eauto using lex_lt_trans.
Qed.

Lemma lex_not_lt_le (v w : list Z) : ~ lex_lt v w -> lex_le w v.
Proof.
  intros Hn; destruct (lex_total v w) as [H|[->|H]].
  - contradiction.
  - apply lex_le_refl.
  - left; assumption.
Qed.

Lemma lex_le_not_lt (v w : list Z) : lex_le w v -> ~ lex_lt v w.
Proof.
  intros [Hwv| ->] Hvw.
  - apply (lex_lt_irrefl v); eauto using lex_lt_trans.
  - apply (lex_lt_irrefl v); assumption.
Qed.

(** Python's comparison of tuples is the lexicographic order. *)
Lemma tuple_lt_iff (v w : list Z) :
  tuple_richcompare Py_LT v w = true <-> lex_lt v w.
Proof.
  revert w; induction v as [|x v IH]; intros [|y w]; simpl.
  - split; [discriminate | intros H; inversion H].
  - split; [constructor | intros _; apply Z.ltb_lt; lia].
  - split; [intros H; apply Z.ltb_lt in H; lia | intros H; inversion H].
  - destruct (Z.eqb_spec x y) as [->|Hne].
    + rewrite IH; split.
      * apply lex_lt_tail.
      * intros H; inversion H; subst; [lia | assumption].
    + rewrite Z.ltb_lt; split.
      * apply lex_lt_head.
      * intros H; inversion H; subst; [assumption | congruence].
Qed.

Lemma tuple_eq_iff (v w : list Z) :
  tuple_richcompare Py_EQ v w = true <-> v = w.
Proof.
  revert w; induction v as [|x v IH]; intros [|y w]; simpl.
  - split; reflexivity.
  - split; discriminate.
  - split; discriminate.
  - destruct (Z.eqb_spec x y) as [->|Hne].
    + rewrite IH; split; [congruence | intros H; inversion H; reflexivity].
    + split; [discriminate | congruence].
Qed.

Lemma tuple_gt_swap (v w : list Z) :
  tuple_richcompare Py_GT v w = tuple_richcompare Py_LT w v.
Proof.
  revert w; induction v as [|x v IH]; intros [|y w]; simpl;
    try reflexivity.
  rewrite (Z.eqb_sym y x); destruct (Z.eqb x y);
    [apply IH | apply Z.gtb_ltb].
Qed.

Lemma tuple_ge_not_lt (v w : list Z) :
  tuple_richcompare Py_GE v w = negb (tuple_richcompare Py_LT v w).
Proof.
  revert w; induction v as [|x v IH]; intros [|y w]; simpl;
    try reflexivity.
  destruct (Z.eqb x y);
    [apply IH | rewrite Z.geb_leb, Z.ltb_antisym, negb_involutive; reflexivity].
Qed.

Lemma tuple_le_not_gt (v w : list Z) :
  tuple_richcompare Py_LE v w = negb (tuple_richcompare Py_GT v w).
Proof.
  revert w; induction v as [|x v IH]; intros [|y w]; simpl;
    try reflexivity.
  destruct (Z.eqb x y);
    [apply IH | rewrite Z.gtb_ltb, Z.ltb_antisym, negb_involutive; reflexivity].
Qed.

Lemma tuple_ne_not_eq (v w : list Z) :
  tuple_richcompare Py_NE v w = negb (tuple_richcompare Py_EQ v w).
Proof.
  revert w; induction v as [|x v IH]; intros [|y w]; simpl; try reflexivity.
  destruct (Z.eqb x y); [apply IH | reflexivity].
Qed.

Lemma tuple_gt_iff (v w : list Z) :
  tuple_richcompare Py_GT v w = true <-> lex_lt w v.
Proof. rewrite tuple_gt_swap; apply tuple_lt_iff. Qed.

Lemma tuple_ge_iff (v w : list Z) :
  tuple_richcompare Py_GE v w = true <-> lex_le w v.
Proof.
  rewrite tuple_ge_not_lt, negb_true_iff, <- not_true_iff_false, tuple_lt_iff.
  split; [apply lex_not_lt_le | apply lex_le_not_lt].
Qed.

Lemma tuple_le_iff (v w : list Z) :
  tuple_richcompare Py_LE v w = true <-> lex_le v w.
Proof.
  rewrite tuple_le_not_gt, negb_true_iff, <- not_true_iff_false, tuple_gt_iff.
  split; [apply lex_not_lt_le | apply lex_le_not_lt].
Qed.

Lemma tuple_richcompare_iff (op : cmp_op) (v w : list Z) :
  tuple_richcompare op v w = true <-> lex_holds op v w.
Proof.
  destruct op; simpl.
  - apply tuple_lt_iff.
  - apply tuple_le_iff.
  - apply tuple_eq_iff.
  - rewrite tuple_ne_not_eq, negb_true_iff, <- not_true_iff_false, tuple_eq_iff.
    reflexivity.
  - apply tuple_gt_iff.
  - apply tuple_ge_iff.
Qed.

(** [max] keeps a greatest item of what it has seen. *)
Lemma fold_max_is_maximum (rest seen : list (list Z)) (m : list Z) :
  is_maximum m seen ->
  is_maximum
    (fold_left
       (fun maxitem item =>
          if tuple_richcompare Py_GT item maxitem then item else maxitem)
       rest m)
    (seen ++ rest).
Proof.
  revert seen m; induction rest as [|item rest IH]; intros seen m [Hin Hmax]; simpl.
  - rewrite app_nil_r; split; assumption.
  - replace (seen ++ item :: rest) with ((seen ++ [item]) ++ rest)
      by (rewrite <- app_assoc; reflexivity).
    apply IH.
    destruct (tuple_richcompare Py_GT item m) eqn:Hgt.
    + apply tuple_gt_iff in Hgt. split.
      * apply in_or_app; right; left; reflexivity.
      * intros t Ht; apply in_app_or in Ht; destruct Ht as [Ht|[<-|[]]].
        -- apply lex_le_trans with m; [auto | left; assumption].
        -- apply lex_le_refl.
    + assert (Hle : lex_le item m).
      { apply lex_not_lt_le; intros H; apply tuple_gt_iff in H; congruence. }
      split.
      * apply in_or_app; left; assumption.
      * intros t Ht; apply in_app_or in Ht; destruct Ht as [Ht|[<-|[]]]; auto.
Qed.

Lemma py_max_is_maximum (items : list (list Z)) :
  items <> [] -> exists m, py_max items = Ok m /\ is_maximum m items.
Proof.
  destruct items as [|first rest]; [congruence | intros _].
  eexists; split; [reflexivity |].
  apply (fold_max_is_maximum rest [first] first).
  split; [left; reflexivity | intros t [<-|[]]; apply lex_le_refl].
Qed.

Lemma is_maximum_unique (m m' : list Z) (ts : list (list Z)) :
  is_maximum m ts -> is_maximum m' ts -> m = m'.
Proof.
  intros [Hin Hmax] [Hin' Hmax']; apply lex_le_antisym; auto.
Qed.

End TupleOrder.

(** ** Sequences of results *)

Section MapResult.

Context {A B : Type} (f : A -> result B).

Lemma map_result_ok_iff (l : list A) (bs : list B) :
  map_result f l = Ok bs <-> Forall2 (fun a b => f a = Ok b) l bs.
Proof.
  revert bs; induction l as [|a l IH]; intros bs; simpl.
  - split.
    + intros H; injection H as <-; constructor.
    + intros H; inversion H; reflexivity.
  - destruct (f a) as [b|e] eqn:Hfa; simpl.
    + destruct (map_result f l) as [bs'|e] eqn:Hl; simpl.
      * split.
        -- intros H; injection H as <-; constructor; [assumption | apply IH; reflexivity].
        -- intros H; inversion H as [|? b' ? bs'' Hb Hrest]; subst.
           apply IH in Hrest. congruence.
      * split; [discriminate |].
        intros H; inversion H as [|? b' ? bs'' Hb Hrest]; subst.
        apply IH in Hrest; discriminate.
    + split; [discriminate |].
      intros H; inversion H; congruence.
Qed.

Lemma map_result_ok_length (l : list A) (bs : list B) :
  map_result f l = Ok bs -> length bs = length l.
Proof.
  intros H; apply map_result_ok_iff in H.
  symmetry; eapply Forall2_length; eassumption.
Qed.

Lemma map_result_ok_each (l : list A) (bs : list B) (a : A) :
  map_result f l = Ok bs -> In a l -> exists b, f a = Ok b /\ In b bs.
Proof.
  intros H; apply map_result_ok_iff in H.
  induction H as [|a' b' l' bs' Hab _ IH]; intros Hin.
  - destruct Hin.
  - destruct Hin as [->|Hin].
    + exists b'; split; [assumption | left; reflexivity].
    + destruct (IH Hin) as (b & Hb & Hbin); exists b; split; [|right]; assumption.
Qed.

Lemma map_result_ok_map (g : A -> B) (l : list A) :
  (forall a, In a l -> f a = Ok (g a)) -> map_result f l = Ok (map g l).
Proof.
  induction l as [|a l IH]; intros H; simpl.
  - reflexivity.
  - rewrite (H a (or_introl eq_refl)); simpl.
    rewrite IH by (intros a' Ha'; apply H; right; assumption).
    reflexivity.
Qed.

(** A failure is the failure of the first element that fails. *)
Lemma map_result_first_error (l : list A) (e : exn) :
  map_result f l = Raise e ->
  exists pre a post,
    l = pre ++ a :: post
    /\ Forall (fun a' => exists b, f a' = Ok b) pre
    /\ f a = Raise e.
Proof.
  induction l as [|a l IH]; simpl.
  - discriminate.
  - destruct (f a) as [b|e'] eqn:Hfa; simpl.
    + destruct (map_result f l) as [bs|e'] eqn:Hl; simpl; [discriminate |].
      intros H; injection H as ->.
      destruct (IH eq_refl) as (pre & a' & post & -> & Hpre & Ha').
      exists (a :: pre), a', post; repeat split; try assumption.
      constructor; [exists b; assumption | assumption].
    + intros H; injection H as ->.
      exists [], a, l; repeat split; [constructor | assumption].
Qed.

Lemma map_result_prefix_error (pre post : list A) (a : A) (e : exn) :
  Forall (fun a' => exists b, f a' = Ok b) pre ->
  f a = Raise e ->
  map_result f (pre ++ a :: post) = Raise e.
Proof.
  induction 1 as [|a' pre [b Hb] _ IH]; intros Ha; simpl.
  - rewrite Ha; reflexivity.
  - rewrite Hb; simpl. rewrite (IH Ha); reflexivity.
Qed.

End MapResult.

(** ** Reading integers *)

Section Parsing.

Variable limit : nat.
Variable text_of : string -> string.

Lemma digit_not_space (c : ascii) : is_digit c = true -> is_int_space c = false.
Proof.
  unfold is_digit, is_int_space; intros H.
  apply andb_true_iff in H; destruct H as [Hlo Hhi].
  apply Nat.leb_le in Hlo, Hhi.
  repeat match goal with
         | |- context [(?a <=? ?b)%nat] => destruct (Nat.leb_spec a b)
         | |- context [(?a =? ?b)%nat] => destruct (Nat.eqb_spec a b)
         end; simpl; try reflexivity; lia.
Qed.

Lemma digit_no_sign (c : ascii) (r : string) :
  is_digit c = true -> take_sign (String c r) = (false, String c r).
Proof.
  destruct c as [[] [] [] [] [] [] [] []]; try discriminate; reflexivity.
Qed.

Lemma digit_starts (c : ascii) (r : string) :
  is_digit c = true -> starts_with_underscore (String c r) = false.
Proof.
  destruct c as [[] [] [] [] [] [] [] []]; try discriminate; reflexivity.
Qed.

(** Over a run of digits the scan computes the positional value. *)
Lemma scan_all_digits (s : string) (acc : Z) (n : nat) :
  all_digits s = true ->
  scan_digits s false acc n
  = Some (acc * 10 ^ Z.of_nat (String.length s) + number_of s,
          (n + String.length s)%nat, EmptyString).
Proof.
  revert acc n; induction s as [|c r IH]; intros acc n Hs.
  - simpl. rewrite Nat.add_0_r. do 3 f_equal. lia.
  - cbn [all_digits] in Hs. apply andb_true_iff in Hs; destruct Hs as [Hc Hr].
    cbn [scan_digits String.length number_of]. rewrite Hc, (IH _ _ Hr).
    rewrite Nat2Z.inj_succ, Z.pow_succ_r by lia.
    do 3 f_equal; [ring | lia].
Qed.

Lemma is_number_inv (s : string) :
  is_number s = true ->
  exists c r, s = String c r /\ is_digit c = true /\ all_digits s = true.
Proof.
  unfold is_number; destruct s as [|c r]; simpl; [discriminate |].
  intros H; exists c, r; split; [reflexivity |].
  split; [| exact H].
  apply andb_true_iff in H; apply H.
Qed.

(** [int] reads a digit string within the limit as the number it denotes. *)
Lemma py_int_number (s : string) :
  is_number s = true ->
  exceeds_limit limit (String.length s) = false ->
  py_int limit text_of s = Ok (number_of s).
Proof.
  intros Hs Hfit.
  destruct (is_number_inv s Hs) as (c & r & -> & Hc & Hall).
  unfold py_int.
  cbn [lstrip]. rewrite (digit_not_space c Hc), (digit_no_sign c r Hc).
  rewrite (digit_starts c r Hc), (scan_all_digits _ 0 0%nat Hall).
  cbn [Nat.add]. rewrite Hfit. reflexivity.
Qed.

(** A minus sign in front negates it: there is no check of the sign. *)
Lemma py_int_negative (s : string) :
  is_number s = true ->
  exceeds_limit limit (String.length s) = false ->
  py_int limit text_of (String "-" s) = Ok (- number_of s).
Proof.
  intros Hs Hfit.
  destruct (is_number_inv s Hs) as (c & r & -> & Hc & Hall).
  unfold py_int.
  cbn [lstrip]. replace (is_int_space "-") with false by reflexivity.
  cbn [take_sign].
  rewrite (digit_starts c r Hc), (scan_all_digits _ 0 0%nat Hall).
  cbn [Nat.add]. rewrite Hfit. reflexivity.
Qed.

(** Whatever [int] rejects, it rejects with a [ValueError] about its
    argument. *)
Lemma py_int_error (s : string) (e : exn) :
  py_int limit text_of s = Raise e -> e = ValueError (text_of s).
Proof.
  unfold py_int.
  destruct (take_sign (lstrip s)) as [negative body].
  destruct (starts_with_underscore body); [congruence |].
  destruct (scan_digits body false 0 0%nat) as [[[magnitude digits] rest]|];
    [| congruence].
  destruct (digits =? 0)%nat; [congruence |].
  destruct (exceeds_limit limit digits); [congruence |].
  destruct (lstrip rest); congruence.
Qed.

(** ** Parsing versions *)

(** [parse_version] succeeds exactly when [int] takes every segment, with the
    integers [int] gives. *)
Lemma parse_version_ok_iff (s : string) (t : list Z) :
  parse_version limit text_of (PStr s) = Ok t
  <-> map_result (py_int limit text_of) (str_split "." s) = Ok t.
Proof.
  unfold parse_version.
  destruct (map_result (py_int limit text_of) (str_split "." s))
    as [parts|e] eqn:H.
  - reflexivity.
  - split; [| discriminate].
    apply map_result_first_error in H.
    destruct H as (pre & seg & post & _ & _ & Hseg).
    rewrite (py_int_error _ _ Hseg); discriminate.
Qed.

(** Otherwise it ends the run, naming the version string and the first
    segment [int] rejected. *)
Lemma parse_version_error (s : string) (e : exn) :
  parse_version limit text_of (PStr s) = Raise e ->
  exists pre seg post,
    str_split "." s = pre ++ seg :: post
    /\ Forall (fun seg' => exists z, py_int limit text_of seg' = Ok z) pre
    /\ py_int limit text_of seg = Raise (ValueError (text_of seg))
    /\ e = SystemExit (parse_error_message s (text_of seg)).
Proof.
  unfold parse_version.
  destruct (map_result (py_int limit text_of) (str_split "." s))
    as [parts|e'] eqn:H;
    [discriminate |].
  apply map_result_first_error in H.
  destruct H as (pre & seg & post & Hsplit & Hpre & Hseg).
  pose proof (py_int_error _ _ Hseg) as ->.
  intros He; injection He as <-.
  exists pre, seg, post; repeat split; assumption.
Qed.

Lemma parse_version_bad_segment (s seg : string) :
  In seg (str_split "." s) ->
  (forall z, py_int limit text_of seg <> Ok z) ->
  exists e, parse_version limit text_of (PStr s) = Raise e.
Proof.
  intros Hin Hbad.
  destruct (parse_version limit text_of (PStr s)) as [t|e] eqn:H;
    [| exists e; reflexivity].
  apply parse_version_ok_iff in H.
  destruct (map_result_ok_each _ _ _ _ H Hin) as (z & Hz & _).
  destruct (Hbad z Hz).
Qed.

(** Beyond the limit a digit string is refused. *)
Lemma py_int_too_long (s : string) :
  is_number s = true ->
  exceeds_limit limit (String.length s) = true ->
  py_int limit text_of s = Raise (ValueError (text_of s)).
Proof.
  intros Hs Hlong.
  destruct (is_number_inv s Hs) as (c & r & -> & Hc & Hall).
  unfold py_int.
  cbn [lstrip]. rewrite (digit_not_space c Hc), (digit_no_sign c r Hc).
  rewrite (digit_starts c r Hc), (scan_all_digits _ 0 0%nat Hall).
  cbn [Nat.add]. rewrite Hlong. reflexivity.
Qed.

Lemma digit_not_dot (c : ascii) : is_digit c = true -> Ascii.eqb c "." = false.
Proof.
  destruct c as [[] [] [] [] [] [] [] []]; try discriminate; reflexivity.
Qed.

Lemma str_split_digits (s : string) :
  all_digits s = true -> str_split "." s = [s].
Proof.
  induction s as [|c r IH]; [reflexivity |].
  cbn [all_digits str_split]; intros H.
  apply andb_true_iff in H; destruct H as [Hc Hr].
  rewrite (digit_not_dot c Hc), (IH Hr); reflexivity.
Qed.

Lemma parse_version_too_long (s : string) :
  is_number s = true ->
  exceeds_limit limit (String.length s) = true ->
  parse_version limit text_of (PStr s)
  = Raise (SystemExit (parse_error_message s (text_of s))).
Proof.
  intros Hs Hlong.
  destruct (is_number_inv s Hs) as (c & r & Heq & _ & Hall).
  unfold parse_version.
  rewrite (str_split_digits s Hall); cbn [map_result].
  rewrite (py_int_too_long s Hs Hlong); reflexivity.
Qed.

(** A dotted numeric string within the limit parses to the numbers it
    denotes. *)
Lemma parse_version_numbers (s : string) :
  dotted_numeric s = true ->
  within_limit limit s = true ->
  parse_version limit text_of (PStr s) = Ok (numbers s).
Proof.
  unfold dotted_numeric, within_limit, numbers; intros Hnum Hfit.
  apply parse_version_ok_iff, map_result_ok_map.
  intros seg Hseg.
  rewrite forallb_forall in Hnum, Hfit.
  apply py_int_number; [apply Hnum; assumption |].
  apply negb_true_iff, Hfit; assumption.
Qed.

End Parsing.

(** ** The run, step by step *)

Lemma io_bind_lift_ok {A B : Type} (a : A) (k : A -> io B) :
  io_bind (lift (Ok a)) k = k a.
Proof. unfold io_bind, lift; destruct (k a); reflexivity. Qed.

Section Run.

Variable loads : string -> option pydict.
Variable limit : nat.
Variable text_of : string -> string.

Lemma main_no_lock (w : world) :
  lock_path w = Missing ->
  main loads limit text_of w
  = (["Cargo.lock not found; skipping compat shim check"%string], Ok 0).
Proof. intros H; unfold main; rewrite H; reflexivity. Qed.

(** Past the lock file: what is left of [main] once the document is there. *)
Lemma main_loaded (w : world) (data : pydict) :
  lock_loaded loads w data ->
  main loads limit text_of w
  = (comp_versions <- lift (comp_versions_of data) ;;
     match comp_versions with
     | [] =>
         print "component-runtime is not in Cargo.lock; skipping compat shim check" ;;
         io_ret 0
     | _ :: _ =>
         version <- lift (parsed <- map_result (parse_version limit text_of)
                                               comp_versions ;;
                          py_max parsed)%result ;;
         manifest <- lift (read_text (cargo_toml w)) ;;
         if tuple_richcompare Py_GE version MIN_VERSION
            && str_contains marker manifest
         then print (removal_message version) ;; io_ret 1
         else io_ret 0
     end)%io.
Proof.
  intros (text & Hlock & Hloads); unfold main.
  rewrite Hlock; cbn [path_exists negb read_text].
  rewrite io_bind_lift_ok, Hloads, io_bind_lift_ok; reflexivity.
Qed.

Lemma main_not_listed (w : world) (data : pydict) :
  lock_loaded loads w data ->
  comp_versions_of data = Ok [] ->
  main loads limit text_of w
  = (["component-runtime is not in Cargo.lock; skipping compat shim check"%string],
     Ok 0).
Proof.
  intros Hw Hcv; rewrite (main_loaded w data Hw), Hcv; reflexivity.
Qed.

Lemma main_parse_fails (w : world) (data : pydict) (vers : list pyval) (e : exn) :
  lock_loaded loads w data ->
  comp_versions_of data = Ok vers ->
  map_result (parse_version limit text_of) vers = Raise e ->
  main loads limit text_of w = ([], Raise e).
Proof.
  intros Hw Hcv Hparse; rewrite (main_loaded w data Hw), Hcv, io_bind_lift_ok.
  destruct vers as [|v vs]; [discriminate |].
  rewrite Hparse; reflexivity.
Qed.

Lemma main_manifest_fails (w : world) (data : pydict) (vers : list pyval)
      (parsed : list (list Z)) (e : exn) :
  lock_loaded loads w data ->
  comp_versions_of data = Ok vers ->
  vers <> [] ->
  map_result (parse_version limit text_of) vers = Ok parsed ->
  read_text (cargo_toml w) = Raise e ->
  main loads limit text_of w = ([], Raise e).
Proof.
  intros Hw Hcv Hne Hparse Hread.
  rewrite (main_loaded w data Hw), Hcv, io_bind_lift_ok.
  destruct vers as [|v vs]; [congruence |].
  rewrite Hparse; cbn [rbind].
  destruct parsed as [|t ts].
  { apply map_result_ok_length in Hparse; discriminate. }
  cbn [py_max]; rewrite io_bind_lift_ok, Hread; reflexivity.
Qed.

Lemma main_decides (w : world) (data : pydict) (vers : list pyval)
      (parsed : list (list Z)) (version : list Z) (manifest : string) :
  lock_loaded loads w data ->
  comp_versions_of data = Ok vers ->
  map_result (parse_version limit text_of) vers = Ok parsed ->
  is_maximum version parsed ->
  cargo_toml w = Contents manifest ->
  main loads limit text_of w
  = if tuple_richcompare Py_GE version MIN_VERSION
       && str_contains marker manifest
    then ([removal_message version], Ok 1)
    else ([], Ok 0).
Proof.
  intros Hw Hcv Hparse Hmax Hmanifest.
  rewrite (main_loaded w data Hw), Hcv, io_bind_lift_ok.
  assert (Hne : parsed <> []) by (destruct Hmax as [Hin _]; destruct parsed; [destruct Hin | discriminate]).
  destruct vers as [|v vs].
  { simpl in Hparse; congruence. }
  rewrite Hparse; cbn [rbind].
  destruct (py_max_is_maximum parsed Hne) as (m & Hm & Hmmax).
  rewrite (is_maximum_unique _ _ _ Hmmax Hmax) in Hm.
  rewrite Hm, io_bind_lift_ok, Hmanifest; cbn [read_text].
  rewrite io_bind_lift_ok.
  destruct (tuple_richcompare Py_GE version MIN_VERSION
            && str_contains marker manifest); reflexivity.
Qed.

(** The exit status of a run that returns or raises. *)
Lemma run_returns (w : world) (out : list string) (n : Z) (p : process) :
  p = {| stdout := out; stderr := Nothing; status := n mod 256 |} ->
  main loads limit text_of w = (out, Ok n) ->
  run loads limit text_of w = p.
Proof. intros -> H; unfold run; rewrite H; reflexivity. Qed.

Lemma run_system_exit (w : world) (out : list string) (message : string) :
  main loads limit text_of w = (out, Raise (SystemExit message)) ->
  run loads limit text_of w
  = {| stdout := out; stderr := Message message; status := 1 |}.
Proof. intros H; unfold run; rewrite H; reflexivity. Qed.

Lemma run_read_error (w : world) (out : list string) (e : read_error) :
  main loads limit text_of w = (out, Raise (ReadError e)) ->
  run loads limit text_of w
  = {| stdout := out; stderr := Traceback (ReadError e); status := 1 |}.
Proof. intros H; unfold run; rewrite H; reflexivity. Qed.

End Run.

(** ** Lock documents *)

Lemma select_versions_records (packages : list pyval)
      (records : list (string * string)) :
  Forall2 (fun pkg r => is_record pkg (fst r) (snd r)) packages records ->
  select_versions packages = Ok (map PStr (watched_versions records)).
Proof.
  unfold watched_versions.
  induction 1 as [|pkg [name version] packages records Hrec _ IH].
  - reflexivity.
  - destruct Hrec as (entries & -> & Hname & Hversion); simpl in Hname, Hversion.
    cbn [select_versions method_get rbind filter fst snd].
    rewrite Hname; cbn [eq_str].
    destruct (String.eqb name watched).
    + cbn [subscript]. rewrite Hversion; cbn [rbind]. rewrite IH; reflexivity.
    + exact IH.
Qed.

Lemma comp_versions_records (data : pydict) (records : list (string * string)) :
  lists_packages data records ->
  comp_versions_of data = Ok (map PStr (watched_versions records)).
Proof.
  intros (packages & Hget & Hrecs); unfold comp_versions_of.
  rewrite Hget; cbn [py_iter rbind].
  apply select_versions_records; assumption.
Qed.

Lemma lock_data_lists (records : list (string * string)) :
  lists_packages (lock_data records) records.
Proof.
  exists (map (fun r => package (fst r) (snd r)) records); split; [reflexivity |].
  induction records as [|[name version] records IH]; constructor; [| exact IH].
  exists [("name"%string, PStr name); ("version"%string, PStr version)].
  repeat split.
Qed.

Lemma watched_versions_none (records : list (string * string)) :
  (forall r, In r records -> fst r <> watched) ->
  watched_versions records = [].
Proof.
  unfold watched_versions; induction records as [|r records IH]; intros Hnone.
  - reflexivity.
  - simpl. destruct (String.eqb_spec (fst r) watched) as [Heq|_].
    + destruct (Hnone r (or_introl eq_refl) Heq).
    + apply IH; intros r' Hr'; apply Hnone; right; assumption.
Qed.

Lemma map_PStr_nil (l : list string) : map PStr l <> [] <-> l <> [].
Proof. destruct l; simpl; split; congruence. Qed.

(** ** Text *)

Lemma prefix_app (p s : string) : String.prefix p (p ++ s) = true.
Proof.
  induction p as [|c p IH]; simpl.
  - destruct s; reflexivity.
  - destruct (ascii_dec c c); [exact IH | congruence].
Qed.

Lemma str_contains_prefix (p s : string) :
  String.prefix p s = true -> str_contains p s = true.
Proof. intros H; destruct s; cbn [str_contains]; rewrite H; reflexivity. Qed.

Lemma str_contains_app (a v b : string) :
  str_contains v (a ++ v ++ b) = true.
Proof.
  induction a as [|c a IH]; cbn [append].
  - apply str_contains_prefix, prefix_app.
  - cbn [str_contains]; rewrite IH; apply orb_true_r.
Qed.

Lemma parse_error_message_names (value exc : string) :
  str_contains value (parse_error_message value exc) = true.
Proof. unfold parse_error_message; apply str_contains_app. Qed.

(** ** Version records *)

Section Versions.

Variable limit : nat.
Variable text_of : string -> string.

(** The first version string that does not parse ends the run. *)
Lemma versions_first_error (vs : list string) (e : exn) :
  map_result (parse_version limit text_of) (map PStr vs) = Raise e ->
  exists pre v post,
    vs = pre ++ v :: post
    /\ Forall (parses limit text_of) pre
    /\ parse_version limit text_of (PStr v) = Raise e.
Proof.
  intros H; apply map_result_first_error in H.
  destruct H as (pre & a & post & Hsplit & Hpre & Ha).
  apply map_eq_app in Hsplit.
  destruct Hsplit as (pre' & rest & -> & <- & Hrest).
  destruct rest as [|v post']; [discriminate |].
  injection Hrest as <- <-.
  exists pre', v, post'; repeat split; [| assumption].
  apply Forall_forall; intros u Hu.
  rewrite Forall_forall in Hpre.
  apply (Hpre (PStr u)), in_map; assumption.
Qed.

Lemma versions_fail (vs : list string) (v : string) :
  In v vs ->
  ~ parses limit text_of v ->
  exists e, map_result (parse_version limit text_of) (map PStr vs) = Raise e.
Proof.
  intros Hin Hbad.
  destruct (map_result (parse_version limit text_of) (map PStr vs))
    as [parsed|e] eqn:H; [| exists e; reflexivity].
  destruct (map_result_ok_each _ _ _ (PStr v) H (in_map PStr _ _ Hin))
    as (t & Ht & _).
  destruct Hbad; exists t; assumption.
Qed.

(** There is one first element that fails. *)
Lemma first_failure_unique {A : Type} (P : A -> Prop)
      (pre pre' post post' : list A) (x y : A) :
  pre ++ x :: post = pre' ++ y :: post' ->
  Forall P pre -> Forall P pre' -> ~ P x -> ~ P y -> x = y.
Proof.
  revert pre'; induction pre as [|a pre IH]; intros [|a' pre'] Heq Hpre Hpre' Hx Hy;
    simpl in Heq; injection Heq as Hhead Htail.
  - assumption.
  - subst a'; inversion Hpre'; contradiction.
  - subst a; inversion Hpre; subst; contradiction.
  - inversion Hpre; inversion Hpre'; subst; eauto.
Qed.

End Versions.

(** ** The specification *)

Section Claims.

Variable loads : string -> option pydict.
Variable limit : nat.
Variable text_of : string -> string.

(** C4: when the lock file does not exist, the run prints one informational
    line and exits with status 0, whatever the state of the manifest: missing,
    unreadable, or holding any text. *)
Theorem missing_lock_file_is_success (manifest : file_state) :
  run loads limit text_of {| lock_path := Missing; cargo_toml := manifest |}
  = {| stdout := ["Cargo.lock not found; skipping compat shim check"%string];
       stderr := Nothing;
       status := 0 |}.
Proof.
  eapply run_returns; [| apply main_no_lock; reflexivity].
  reflexivity.
Qed.

(** C5: when the lock file exists and parses but none of its package records
    is named after the watched dependency, the run prints one informational
    line and exits with status 0, whatever the state of the manifest. *)
Theorem unlisted_dependency_is_success
        (text : string) (data : pydict) (records : list (string * string))
        (manifest : file_state) :
  loads text = Some data ->
  lists_packages data records ->
  (forall r, In r records -> fst r <> watched) ->
  run loads limit text_of
      {| lock_path := Contents text; cargo_toml := manifest |}
  = {| stdout :=
         ["component-runtime is not in Cargo.lock; skipping compat shim check"%string];
       stderr := Nothing;
       status := 0 |}.
Proof.
  intros Hloads Hlists Hnone.
  eapply run_returns; [| apply main_not_listed with data]; [reflexivity | |].
  - exists text; split; [reflexivity | assumption].
  - rewrite (comp_versions_records data records Hlists).
    rewrite (watched_versions_none records Hnone); reflexivity.
Qed.

(** The run of a lock file whose watched versions all parse, on a readable
    manifest. *)
Lemma run_decides (text : string) (data : pydict)
      (records : list (string * string)) (parsed : list (list Z))
      (version : list Z) (manifest : string) :
  loads text = Some data ->
  lists_packages data records ->
  map_result (parse_version limit text_of) (map PStr (watched_versions records))
  = Ok parsed ->
  is_maximum version parsed ->
  run loads limit text_of
      {| lock_path := Contents text; cargo_toml := Contents manifest |}
  = if tuple_richcompare Py_GE version MIN_VERSION
       && str_contains marker manifest
    then {| stdout := [removal_message version]; stderr := Nothing; status := 1 |}
    else {| stdout := []; stderr := Nothing; status := 0 |}.
Proof.
  intros Hloads Hlists Hparse Hmax.
  unfold run.
  rewrite (main_decides loads limit text_of _ data
                        (map PStr (watched_versions records))
                        parsed version manifest);
    try assumption; try reflexivity.
  - destruct (tuple_richcompare Py_GE version MIN_VERSION
              && str_contains marker manifest); reflexivity.
  - exists text; split; [reflexivity | assumption].
  - apply comp_versions_records; assumption.
Qed.

(** C1: when the lock file exists, lists the watched dependency, and every
    version listed for it parses, the run on a manifest text exits with
    status 1 exactly when the maximum parsed version is at or above the
    threshold and the manifest text contains the marker, and with status 0 in
    every other combination. *)
Theorem decision_rule
        (text : string) (data : pydict) (records : list (string * string))
        (parsed : list (list Z)) (version : list Z) (manifest : string) :
  loads text = Some data ->
  lists_packages data records ->
  watched_versions records <> [] ->
  map_result (parse_version limit text_of) (map PStr (watched_versions records))
  = Ok parsed ->
  is_maximum version parsed ->
  (status (run loads limit text_of
               {| lock_path := Contents text; cargo_toml := Contents manifest |})
   = 1
   <-> lex_le MIN_VERSION version /\ str_contains marker manifest = true)
  /\ (status (run loads limit text_of
                  {| lock_path := Contents text; cargo_toml := Contents manifest |})
      = 0
      <-> ~ (lex_le MIN_VERSION version /\ str_contains marker manifest = true)).
Proof.
  intros Hloads Hlists _ Hparse Hmax.
  rewrite (run_decides text data records parsed version manifest) by assumption.
  rewrite <- tuple_ge_iff, <- andb_true_iff.
  destruct (tuple_richcompare Py_GE version MIN_VERSION
            && str_contains marker manifest); simpl.
  - split; split; auto; [discriminate | intros H; destruct H; reflexivity].
  - split; split; auto; discriminate.
Qed.

(** C2: the threshold is (0,4,0); when the lock file lists the watched
    dependency at version "0.4.0" only and the manifest text contains the
    marker, the run exits with status 1 and prints the message asking for
    the shim to be dropped. *)
Theorem threshold_scenario
        (text : string) (data : pydict) (records : list (string * string))
        (manifest : string) :
  loads text = Some data ->
  lists_packages data records ->
  watched_versions records = ["0.4.0"%string] ->
  str_contains marker manifest = true ->
  MIN_VERSION = [0; 4; 0]
  /\ run loads limit text_of
         {| lock_path := Contents text; cargo_toml := Contents manifest |}
     = {| stdout :=
            [("component-runtime has reached 0.4.0 but greentic-types-compat is still present."
              ++ nl
              ++ "Please drop the compat shim and migrate to greentic-types 0.3+ throughout.")%string];
          stderr := Nothing;
          status := 1 |}.
Proof.
  intros Hloads Hlists Hvers Hmarker; split; [reflexivity |].
  rewrite (run_decides text data records [[0; 4; 0]] [0; 4; 0] manifest);
    try assumption.
  - rewrite Hmarker; reflexivity.
  - rewrite Hvers; reflexivity.
  - split; [left; reflexivity | intros t [<-|[]]; apply lex_le_refl].
Qed.

(** C6: when the lock file lists the watched dependency several times, every
    listed version is parsed and the maximum of the parsed tuples is the one
    compared against the threshold; with versions "0.3.9" and "0.4.1" and the
    marker in the manifest, the selected version is (0,4,1) and the exit
    status is 1. *)
Theorem maximum_version_is_compared
        (text : string) (data : pydict) (records : list (string * string))
        (parsed : list (list Z)) (manifest : string) :
  loads text = Some data ->
  lists_packages data records ->
  watched_versions records <> [] ->
  map_result (parse_version limit text_of) (map PStr (watched_versions records))
  = Ok parsed ->
  exists version,
    py_max parsed = Ok version
    /\ is_maximum version parsed
    /\ Forall2 (fun v t => parse_version limit text_of (PStr v) = Ok t)
               (watched_versions records) parsed
    /\ run loads limit text_of
           {| lock_path := Contents text; cargo_toml := Contents manifest |}
       = (if tuple_richcompare Py_GE version MIN_VERSION
             && str_contains marker manifest
          then {| stdout := [removal_message version]; stderr := Nothing;
                  status := 1 |}
          else {| stdout := []; stderr := Nothing; status := 0 |})
    /\ (watched_versions records = ["0.3.9"; "0.4.1"]%string ->
        str_contains marker manifest = true ->
        version = [0; 4; 1]
        /\ status (run loads limit text_of
                       {| lock_path := Contents text;
                          cargo_toml := Contents manifest |}) = 1).
Proof.
  intros Hloads Hlists Hne Hparse.
  assert (Hparsed : parsed <> []).
  { apply map_result_ok_length in Hparse. rewrite length_map in Hparse.
    destruct parsed; [| discriminate].
    destruct (watched_versions records); [congruence | discriminate]. }
  destruct (py_max_is_maximum parsed Hparsed) as (version & Hpy & Hmax).
  pose proof (run_decides text data records parsed version manifest
                          Hloads Hlists Hparse Hmax) as Hrun.
  exists version.
  split; [assumption |]. split; [assumption |].
  split; [| split; [assumption |]].
  - apply map_result_ok_iff in Hparse.
    clear -Hparse. revert parsed Hparse.
    induction (watched_versions records) as [|v vs IH]; intros parsed H;
      inversion H; subst; constructor; auto.
  - intros Hvers Hmarker. rewrite Hrun, Hmarker.
    rewrite Hvers in Hparse.
    injection Hparse as <-. injection Hpy as <-. split; reflexivity.
Qed.

(** C8: when the lock file exists, lists the watched dependency with
    versions that all parse, and the manifest is missing or cannot be read,
    the error of reading it is not caught: nothing is printed, the run ends
    on that exception with a traceback and a non-zero status. *)
Theorem unreadable_manifest_propagates
        (text : string) (data : pydict) (records : list (string * string))
        (parsed : list (list Z)) (manifest : file_state) :
  loads text = Some data ->
  lists_packages data records ->
  watched_versions records <> [] ->
  map_result (parse_version limit text_of) (map PStr (watched_versions records))
  = Ok parsed ->
  (forall contents, manifest <> Contents contents) ->
  exists e,
    read_text manifest = Raise (ReadError e)
    /\ (manifest = Missing -> e = FileNotFoundError)
    /\ main loads limit text_of
            {| lock_path := Contents text; cargo_toml := manifest |}
       = ([], Raise (ReadError e))
    /\ run loads limit text_of
           {| lock_path := Contents text; cargo_toml := manifest |}
       = {| stdout := []; stderr := Traceback (ReadError e); status := 1 |}.
Proof.
  intros Hloads Hlists Hne Hparse Hmanifest.
  assert (Hread : exists e, read_text manifest = Raise (ReadError e)
                            /\ (manifest = Missing -> e = FileNotFoundError)).
  { destruct manifest as [|e|contents].
    - exists FileNotFoundError; split; reflexivity.
    - exists e; split; [reflexivity | discriminate].
    - destruct (Hmanifest contents eq_refl). }
  destruct Hread as (e & Hread & Hmissing).
  assert (Hmain : main loads limit text_of
                       {| lock_path := Contents text; cargo_toml := manifest |}
                  = ([], Raise (ReadError e))).
  { apply main_manifest_fails
      with data (map PStr (watched_versions records)) parsed;
      try assumption.
    - exists text; split; [reflexivity | assumption].
    - apply comp_versions_records; assumption.
    - apply map_PStr_nil; assumption. }
  exists e; repeat split; try assumption.
  apply run_read_error; assumption.
Qed.

(** C3: when a version string listed for the watched dependency has a
    segment that [int] does not take, the run ends during parsing, before the
    manifest is looked at and with nothing printed: a [SystemExit] whose
    message names the version string that stopped it, the first one that
    does not parse, and a non-zero exit status. *)
Theorem unparsable_version_aborts
        (text : string) (data : pydict) (records : list (string * string))
        (manifest : file_state) (v seg : string) :
  loads text = Some data ->
  lists_packages data records ->
  In v (watched_versions records) ->
  In seg (str_split "." v) ->
  (forall z, py_int limit text_of seg <> Ok z) ->
  exists v0 seg0,
    In v0 (watched_versions records)
    /\ In seg0 (str_split "." v0)
    /\ py_int limit text_of seg0 = Raise (ValueError (text_of seg0))
    /\ run loads limit text_of
           {| lock_path := Contents text; cargo_toml := manifest |}
       = {| stdout := [];
            stderr := Message (parse_error_message v0 (text_of seg0));
            status := 1 |}
    /\ str_contains v0 (parse_error_message v0 (text_of seg0)) = true
    /\ (forall pre post,
           watched_versions records = pre ++ v :: post ->
           Forall (parses limit text_of) pre ->
           v0 = v).
Proof.
  intros Hloads Hlists Hv Hseg Hbad.
  assert (Hnot : ~ parses limit text_of v).
  { intros [t Ht].
    destruct (parse_version_bad_segment limit text_of v seg Hseg Hbad) as [e He].
    congruence. }
  destruct (versions_fail limit text_of _ v Hv Hnot) as [e He].
  destruct (versions_first_error limit text_of _ e He)
    as (pre0 & v0 & post0 & Hsplit & Hpre0 & Hv0).
  destruct (parse_version_error limit text_of v0 e Hv0)
    as (segs & seg0 & segs' & Hsegs & _ & Hseg0 & ->).
  exists v0, seg0.
  split; [rewrite Hsplit; apply in_elt |].
  split; [rewrite Hsegs; apply in_elt |].
  split; [assumption |].
  split; [| split].
  - apply run_system_exit, main_parse_fails
      with data (map PStr (watched_versions records)).
    + exists text; split; [reflexivity | assumption].
    + apply comp_versions_records; assumption.
    + assumption.
  - apply parse_error_message_names.
  - intros pre post Hsplit' Hpre.
    apply (first_failure_unique (parses limit text_of) pre0 pre post0 post);
      try assumption.
    + congruence.
    + intros [t Ht]; congruence.
Qed.

(** C7, amended: for two version strings of dot-separated non-negative
    integers with the same number of segments, none of them longer than the
    interpreter's limit on the digits of an integer string, [parse_version]
    gives the sequences of numbers they denote, and every comparison of the
    two tuples is the comparison of those sequences in the standard
    lexicographic order. *)
Theorem parse_then_compare_is_lexicographic (a b : string) :
  dotted_numeric a = true ->
  dotted_numeric b = true ->
  length (str_split "." a) = length (str_split "." b) ->
  within_limit limit a = true ->
  within_limit limit b = true ->
  parse_version limit text_of (PStr a) = Ok (numbers a)
  /\ parse_version limit text_of (PStr b) = Ok (numbers b)
  /\ forall op,
      tuple_richcompare op (numbers a) (numbers b) = true
      <-> lex_holds op (numbers a) (numbers b).
Proof.
  intros Ha Hb _ Hfa Hfb.
  split; [apply parse_version_numbers; assumption |].
  split; [apply parse_version_numbers; assumption |].
  intros op; apply tuple_richcompare_iff.
Qed.

(** C9: [parse_version] takes every segment that [int] takes, with the
    integer [int] gives, and checks no sign: a digit string with a minus sign
    in front is read as a negative integer, and "0.-1.0" parses to
    (0,-1,0). *)
Theorem negative_segments_are_accepted :
  parse_version limit text_of (PStr "0.-1.0") = Ok [0; -1; 0]
  /\ (forall s t,
         parse_version limit text_of (PStr s) = Ok t
         <-> map_result (py_int limit text_of) (str_split "." s) = Ok t)
  /\ (forall digits,
         is_number digits = true ->
         exceeds_limit limit (String.length digits) = false ->
         py_int limit text_of (String "-" digits) = Ok (- number_of digits)).
Proof.
  split; [reflexivity |].
  split; [apply parse_version_ok_iff | apply py_int_negative].
Qed.

(** C10: what [parse_version] raises for a version string it cannot parse is
    a [SystemExit] carrying a message; a run that ends on it has exit status
    1, the exit status of the run that asks for the shim to be removed. *)
Theorem parse_failure_shares_exit_status
        (s : string) (e : exn) (w w' : world) (out out' : list string) :
  parse_version limit text_of (PStr s) = Raise e ->
  main loads limit text_of w = (out, Raise e) ->
  main loads limit text_of w' = (out', Ok 1) ->
  exists message,
    e = SystemExit message
    /\ run loads limit text_of w
       = {| stdout := out; stderr := Message message; status := 1 |}
    /\ run loads limit text_of w'
       = {| stdout := out'; stderr := Nothing; status := 1 |}
    /\ status (run loads limit text_of w) = status (run loads limit text_of w').
Proof.
  intros Hparse Hmain Hmain'.
  destruct (parse_version_error limit text_of s e Hparse)
    as (pre & seg & post & _ & _ & _ & ->).
  exists (parse_error_message s (text_of seg)).
  pose proof (run_system_exit loads limit text_of w out _ Hmain) as Hrun.
  assert (Hrun' : run loads limit text_of w'
                  = {| stdout := out'; stderr := Nothing; status := 1 |}).
  { eapply run_returns; [| eassumption]; reflexivity. }
  rewrite Hrun, Hrun'; repeat split.
Qed.

End Claims.

(** ** The specification on sample inputs *)

(** Below the threshold the marker does not matter. *)
Example old_version_with_shim :
  run sample_loads default_max_str_digits invalid_literal
      (sample_world records_old (Contents manifest_with_shim))
  = {| stdout := []; stderr := Nothing; status := 0 |}.
Proof. reflexivity. Qed.

(** At the threshold, without the marker, there is nothing to remove. *)
Example threshold_without_shim :
  run sample_loads default_max_str_digits invalid_literal
      (sample_world records_single (Contents manifest_without_shim))
  = {| stdout := []; stderr := Nothing; status := 0 |}.
Proof. reflexivity. Qed.

(** A lock file that is not a TOML document ends the run on the parser's
    exception. *)
Example unknown_lock_text :
  run sample_loads default_max_str_digits invalid_literal
      {| lock_path := Contents "not a lock file";
         cargo_toml := Contents manifest_with_shim |}
  = {| stdout := []; stderr := Traceback TOMLDecodeError; status := 1 |}.
Proof. reflexivity. Qed.

Lemma is_maximum_double : is_maximum [0; 4; 1] [[0; 3; 9]; [0; 4; 1]].
Proof.
  split; [right; left; reflexivity |].
  intros t [<-|[<-|[]]].
  - left; apply lex_lt_tail, lex_lt_head; lia.
  - right; reflexivity.
Qed.

Lemma decision_rule_witness :
  (status (run sample_loads default_max_str_digits invalid_literal
               (sample_world records_double (Contents manifest_with_shim)))
   = 1
   <-> lex_le MIN_VERSION [0; 4; 1]
       /\ str_contains marker manifest_with_shim = true)
  /\ (status (run sample_loads default_max_str_digits invalid_literal
                  (sample_world records_double (Contents manifest_with_shim)))
      = 0
      <-> ~ (lex_le MIN_VERSION [0; 4; 1]
             /\ str_contains marker manifest_with_shim = true)).
Proof.
  apply (decision_rule sample_loads default_max_str_digits invalid_literal
                       (lock_text records_double) (lock_data records_double)
                       records_double [[0; 3; 9]; [0; 4; 1]] [0; 4; 1]
                       manifest_with_shim).
  - reflexivity.
  - apply lock_data_lists.
  - discriminate.
  - reflexivity.
  - apply is_maximum_double.
Defined.

Lemma threshold_scenario_witness :
  MIN_VERSION = [0; 4; 0]
  /\ run sample_loads default_max_str_digits invalid_literal
         (sample_world records_single (Contents manifest_with_shim))
     = {| stdout :=
            [("component-runtime has reached 0.4.0 but greentic-types-compat is still present."
              ++ nl
              ++ "Please drop the compat shim and migrate to greentic-types 0.3+ throughout.")%string];
          stderr := Nothing;
          status := 1 |}.
Proof.
  apply (threshold_scenario sample_loads default_max_str_digits invalid_literal
                            (lock_text records_single)
                            (lock_data records_single) records_single
                            manifest_with_shim).
  - reflexivity.
  - apply lock_data_lists.
  - reflexivity.
  - reflexivity.
Defined.

Lemma unparsable_version_aborts_witness :
  exists v0 seg0,
    In v0 (watched_versions records_bad)
    /\ In seg0 (str_split "." v0)
    /\ py_int default_max_str_digits invalid_literal seg0
       = Raise (ValueError (invalid_literal seg0))
    /\ run sample_loads default_max_str_digits invalid_literal
           (sample_world records_bad Missing)
       = {| stdout := [];
            stderr := Message (parse_error_message v0 (invalid_literal seg0));
            status := 1 |}
    /\ str_contains v0 (parse_error_message v0 (invalid_literal seg0)) = true
    /\ (forall pre post,
           watched_versions records_bad = pre ++ "0.x.0"%string :: post ->
           Forall (parses default_max_str_digits invalid_literal) pre ->
           v0 = "0.x.0"%string).
Proof.
  apply (unparsable_version_aborts
           sample_loads default_max_str_digits invalid_literal
           (lock_text records_bad) (lock_data records_bad) records_bad
           Missing "0.x.0"%string "x"%string).
  - reflexivity.
  - apply lock_data_lists.
  - right; left; reflexivity.
  - right; left; reflexivity.
  - intros z H; vm_compute in H; discriminate.
Defined.

Lemma unlisted_dependency_is_success_witness :
  run sample_loads default_max_str_digits invalid_literal
      (sample_world records_other Missing)
  = {| stdout :=
         ["component-runtime is not in Cargo.lock; skipping compat shim check"%string];
       stderr := Nothing;
       status := 0 |}.
Proof.
  apply (unlisted_dependency_is_success
           sample_loads default_max_str_digits invalid_literal
           (lock_text records_other) (lock_data records_other) records_other
           Missing).
  - reflexivity.
  - apply lock_data_lists.
  - intros r [<-|[<-|[]]]; discriminate.
Defined.

Lemma maximum_version_is_compared_witness :
  exists version,
    py_max [[0; 3; 9]; [0; 4; 1]] = Ok version
    /\ is_maximum version [[0; 3; 9]; [0; 4; 1]]
    /\ Forall2 (fun v t =>
                  parse_version default_max_str_digits invalid_literal (PStr v)
                  = Ok t)
               (watched_versions records_double) [[0; 3; 9]; [0; 4; 1]]
    /\ run sample_loads default_max_str_digits invalid_literal
           (sample_world records_double (Contents manifest_with_shim))
       = (if tuple_richcompare Py_GE version MIN_VERSION
             && str_contains marker manifest_with_shim
          then {| stdout := [removal_message version]; stderr := Nothing;
                  status := 1 |}
          else {| stdout := []; stderr := Nothing; status := 0 |})
    /\ (watched_versions records_double = ["0.3.9"; "0.4.1"]%string ->
        str_contains marker manifest_with_shim = true ->
        version = [0; 4; 1]
        /\ status (run sample_loads default_max_str_digits invalid_literal
                       (sample_world records_double
                                     (Contents manifest_with_shim))) = 1).
Proof.
  apply (maximum_version_is_compared
           sample_loads default_max_str_digits invalid_literal
           (lock_text records_double) (lock_data records_double)
           records_double [[0; 3; 9]; [0; 4; 1]] manifest_with_shim).
  - reflexivity.
  - apply lock_data_lists.
  - discriminate.
  - reflexivity.
Defined.

Lemma parse_then_compare_is_lexicographic_witness :
  parse_version default_max_str_digits invalid_literal (PStr "0.3.9")
  = Ok (numbers "0.3.9")
  /\ parse_version default_max_str_digits invalid_literal (PStr "0.4.0")
     = Ok (numbers "0.4.0")
  /\ forall op,
      tuple_richcompare op (numbers "0.3.9") (numbers "0.4.0") = true
      <-> lex_holds op (numbers "0.3.9") (numbers "0.4.0").
Proof.
  apply (parse_then_compare_is_lexicographic
           default_max_str_digits invalid_literal "0.3.9"%string "0.4.0"%string);
    reflexivity.
Defined.

(** C7 as stated fails: under the default limit of 4300 digits, a segment of
    4301 digits is a non-negative integer that [parse_version] refuses. *)
Lemma long_segment_counterexample :
  ~ (forall a b : string,
        dotted_numeric a = true ->
        dotted_numeric b = true ->
        length (str_split "." a) = length (str_split "." b) ->
        exists ta tb,
          parse_version default_max_str_digits invalid_literal (PStr a) = Ok ta
          /\ parse_version default_max_str_digits invalid_literal (PStr b)
             = Ok tb
          /\ forall op,
              tuple_richcompare op ta tb = true
              <-> lex_holds op (numbers a) (numbers b)).
Proof.
  intros H.
  assert (Hnum : is_number long_number = true) by (vm_compute; reflexivity).
  assert (Hlong : exceeds_limit default_max_str_digits
                                (String.length long_number) = true)
    by (vm_compute; reflexivity).
  assert (Hdotted : dotted_numeric long_number = true)
    by (vm_compute; reflexivity).
  destruct (H long_number long_number Hdotted Hdotted eq_refl)
    as (ta & _ & Hta & _).
  rewrite (parse_version_too_long _ invalid_literal _ Hnum Hlong) in Hta.
  discriminate Hta.
Qed.

Lemma unreadable_manifest_propagates_witness :
  exists e,
    read_text Missing = Raise (ReadError e)
    /\ (Missing = Missing -> e = FileNotFoundError)
    /\ main sample_loads default_max_str_digits invalid_literal
            (sample_world records_single Missing)
       = ([], Raise (ReadError e))
    /\ run sample_loads default_max_str_digits invalid_literal
           (sample_world records_single Missing)
       = {| stdout := []; stderr := Traceback (ReadError e); status := 1 |}.
Proof.
  apply (unreadable_manifest_propagates
           sample_loads default_max_str_digits invalid_literal
           (lock_text records_single) (lock_data records_single)
           records_single [[0; 4; 0]] Missing).
  - reflexivity.
  - apply lock_data_lists.
  - discriminate.
  - reflexivity.
  - discriminate.
Defined.

Lemma negative_segments_are_accepted_witness :
  py_int default_max_str_digits invalid_literal "-12" = Ok (-12).
Proof.
  apply (proj2 (proj2 (negative_segments_are_accepted
                         default_max_str_digits invalid_literal))
               "12"%string);
    reflexivity.
Defined.

Lemma parse_failure_shares_exit_status_witness :
  exists message,
    SystemExit (parse_error_message "0.x.0" (invalid_literal "x"))
    = SystemExit message
    /\ run sample_loads default_max_str_digits invalid_literal
           (sample_world records_bad (Contents manifest_with_shim))
       = {| stdout := []; stderr := Message message; status := 1 |}
    /\ run sample_loads default_max_str_digits invalid_literal
           (sample_world records_single (Contents manifest_with_shim))
       = {| stdout := [removal_message [0; 4; 0]]; stderr := Nothing;
            status := 1 |}
    /\ status (run sample_loads default_max_str_digits invalid_literal
                   (sample_world records_bad (Contents manifest_with_shim)))
       = status (run sample_loads default_max_str_digits invalid_literal
                     (sample_world records_single
                                   (Contents manifest_with_shim))).
Proof.
  apply (parse_failure_shares_exit_status
           sample_loads default_max_str_digits invalid_literal
           "0.x.0"%string
           (SystemExit (parse_error_message "0.x.0" (invalid_literal "x")))
           (sample_world records_bad (Contents manifest_with_shim))
           (sample_world records_single (Contents manifest_with_shim))
           [] [removal_message [0; 4; 0]]);
    reflexivity.
Defined.

(** * Further properties of the script *)

(** ** Every run *)

Section Outcomes.

Variable loads : string -> option pydict.
Variable limit : nat.
Variable text_of : string -> string.



(** X2: a lock file that exists but cannot be read, or that is not a TOML
    document, is no reason to skip the check: the exception ends the run with
    status 1, and the manifest is not looked at. *)
Theorem broken_lock_file_aborts (manifest : file_state) :
  (forall e,
      run loads limit text_of
          {| lock_path := Unreadable e; cargo_toml := manifest |}
      = aborted (ReadError e))
  /\ (forall text,
         loads text = None ->
         run loads limit text_of
             {| lock_path := Contents text; cargo_toml := manifest |}
         = aborted TOMLDecodeError).
Proof.
  split.
  - intros e; reflexivity.
  - intros text Hloads; unfold run, main; cbn [lock_path path_exists negb read_text].
    rewrite io_bind_lift_ok, Hloads; reflexivity.
Qed.

End Outcomes.

(** ** Package entries *)

Section Entries.

Variable loads : string -> option pydict.
Variable limit : nat.
Variable text_of : string -> string.

(** Entries that are not records of the watched dependency are passed over,
    whatever they hold or lack. *)
Lemma select_versions_filter (entries : list pydict) :
  select_versions (map PDict entries)
  = select_versions (map PDict (filter is_watched_entry entries)).
Proof.
  induction entries as [|d entries IH]; [reflexivity |].
  cbn [map filter select_versions method_get rbind].
  fold (is_watched_entry d).
  destruct (is_watched_entry d) eqn:Hd.
  - cbn [map select_versions method_get rbind].
    fold (is_watched_entry d); rewrite Hd, IH; reflexivity.
  - exact IH.
Qed.

Lemma select_versions_key_error (entries : list pydict) (d : pydict) :
  In d entries ->
  is_watched_entry d = true ->
  dict_get d "version" = None ->
  select_versions (map PDict entries) = Raise (KeyError "version").
Proof.
  intros Hin Hd Hversion.
  induction entries as [|d0 entries IH]; [destruct Hin |].
  cbn [map select_versions method_get rbind].
  fold (is_watched_entry d0).
  destruct Hin as [->|Hin].
  - rewrite Hd; cbn [subscript]; rewrite Hversion; reflexivity.
  - rewrite (IH Hin).
    destruct (is_watched_entry d0); [| reflexivity].
    cbn [subscript]; destruct (dict_get d0 "version"); reflexivity.
Qed.

Lemma main_versions_error (w : world) (data : pydict) (e : exn) :
  lock_loaded loads w data ->
  comp_versions_of data = Raise e ->
  main loads limit text_of w = ([], Raise e).
Proof.
  intros Hw Hcv; rewrite (main_loaded loads limit text_of w data Hw), Hcv.
  reflexivity.
Qed.

(** X3: when a record of the watched dependency has no version, the run ends
    on a [KeyError] for "version" with nothing printed and status 1; the
    version strings of the other records, parsable or not, and the manifest
    are never looked at. *)
Theorem record_without_version_aborts
        (text : string) (data : pydict) (entries : list pydict) (d : pydict)
        (manifest : file_state) :
  loads text = Some data ->
  dict_get data "package" = Some (PList (map PDict entries)) ->
  In d entries ->
  is_watched_entry d = true ->
  dict_get d "version" = None ->
  run loads limit text_of
      {| lock_path := Contents text; cargo_toml := manifest |}
  = aborted (KeyError "version").
Proof.
  intros Hloads Hpackage Hin Hd Hversion.
  unfold run.
  rewrite (main_versions_error _ data (KeyError "version")); [reflexivity | |].
  - exists text; split; [reflexivity | assumption].
  - unfold comp_versions_of, dict_get_default. rewrite Hpackage; cbn [py_iter rbind].
    apply select_versions_key_error with d; assumption.
Qed.

(** X4: the outcome depends on the lock file only through the entries named
    after the watched dependency: two lock files whose watched entries are
    the same give the same run on the same manifest, whatever their other
    entries hold or lack. *)
Theorem only_watched_entries_matter
        (text text' : string) (data data' : pydict)
        (entries entries' : list pydict) (manifest : file_state) :
  loads text = Some data ->
  loads text' = Some data' ->
  dict_get data "package" = Some (PList (map PDict entries)) ->
  dict_get data' "package" = Some (PList (map PDict entries')) ->
  filter is_watched_entry entries = filter is_watched_entry entries' ->
  run loads limit text_of
      {| lock_path := Contents text; cargo_toml := manifest |}
  = run loads limit text_of
        {| lock_path := Contents text'; cargo_toml := manifest |}.
Proof.
  intros Hloads Hloads' Hpackage Hpackage' Hsame.
  assert (Hcv : comp_versions_of data = comp_versions_of data').
  { unfold comp_versions_of, dict_get_default.
    rewrite Hpackage, Hpackage'; cbn [py_iter rbind].
    rewrite (select_versions_filter entries), (select_versions_filter entries').
    rewrite Hsame; reflexivity. }
  unfold run.
  rewrite (main_loaded loads limit text_of _ data)
    by (exists text; split; [reflexivity | assumption]).
  rewrite (main_loaded loads limit text_of _ data')
    by (exists text'; split; [reflexivity | assumption]).
  rewrite Hcv; reflexivity.
Qed.

(** X5: a version that is not text, such as a TOML integer, is not reported
    with the message of [parse_version]: once the versions before it have
    parsed, the run ends on an [AttributeError] with a traceback, nothing
    printed and status 1, whatever the manifest. *)
Theorem version_that_is_not_text_aborts
        (text : string) (data : pydict) (pre post : list pyval) (v : pyval)
        (manifest : file_state) :
  loads text = Some data ->
  comp_versions_of data = Ok (pre ++ v :: post) ->
  Forall (fun u => exists t, parse_version limit text_of u = Ok t) pre ->
  (forall s, v <> PStr s) ->
  run loads limit text_of
      {| lock_path := Contents text; cargo_toml := manifest |}
  = aborted AttributeError.
Proof.
  intros Hloads Hcv Hpre Hv.
  assert (Hparse : parse_version limit text_of v = Raise AttributeError).
  { destruct v; try reflexivity. destruct (Hv s eq_refl). }
  unfold run.
  rewrite (main_parse_fails loads limit text_of _ data (pre ++ v :: post)
                            AttributeError);
    [reflexivity | | assumption |].
  - exists text; split; [reflexivity | assumption].
  - apply map_result_prefix_error; assumption.
Qed.

End Entries.

(** ** The threshold *)

(** X6: which versions are at or above the threshold, by their segments.
    With three segments or more it is those from 0.4.0 on; a version of two
    segments has to be above 0.4, since (0,4) is a proper prefix of the
    threshold and compares below it; no version 0.3.x is at the threshold. *)
Theorem threshold_by_segments :
  (forall a b c rest,
      tuple_richcompare Py_GE (a :: b :: c :: rest) MIN_VERSION = true
      <-> 0 < a \/ (a = 0 /\ (4 < b \/ (b = 4 /\ 0 <= c))))
  /\ (forall a b,
         tuple_richcompare Py_GE [a; b] MIN_VERSION = true
         <-> 0 < a \/ (a = 0 /\ 4 < b))
  /\ (forall a, tuple_richcompare Py_GE [a] MIN_VERSION = true <-> 0 < a)
  /\ (forall c rest,
         tuple_richcompare Py_GE (0 :: 3 :: c :: rest) MIN_VERSION = false).
Proof.
  assert (Hnil : forall rest, tuple_richcompare Py_GE rest [] = true).
  { intros [|x rest]; [reflexivity |].
    cbn [tuple_richcompare int_richcompare length]. apply Z.geb_le; lia. }
  unfold MIN_VERSION; split; [| split; [| split]].
  - intros a b c rest. cbn [tuple_richcompare int_richcompare].
    destruct (Z.eqb_spec a 0), (Z.eqb_spec b 4), (Z.eqb_spec c 0);
      subst; rewrite ?Hnil, ?Z.geb_le; split; intros; try lia; reflexivity.
  - intros a b. cbn [tuple_richcompare int_richcompare length].
    destruct (Z.eqb_spec a 0), (Z.eqb_spec b 4);
      subst; rewrite ?Z.geb_le; split; intros; try lia; discriminate.
  - intros a. cbn [tuple_richcompare int_richcompare length].
    destruct (Z.eqb_spec a 0);
      subst; rewrite ?Z.geb_le; split; intros; try lia; discriminate.
  - intros c rest; reflexivity.
Qed.

(** ** The order of the records *)

Section Order.

Variable loads : string -> option pydict.
Variable limit : nat.
Variable text_of : string -> string.

Lemma map_result_perm {A B : Type} (f : A -> result B) (l l' : list A) :
  Permutation l l' ->
  forall bs, map_result f l = Ok bs ->
  exists bs', map_result f l' = Ok bs' /\ Permutation bs bs'.
Proof.
  induction 1 as [|x l l' _ IH|x y l|l l' l'' _ IH _ IH']; intros bs Hbs.
  - exists bs; split; [assumption | apply Permutation_refl].
  - cbn [map_result] in *.
    destruct (f x) as [b|e]; [| discriminate].
    destruct (map_result f l) as [bs0|e]; [| discriminate].
    cbn [rbind] in Hbs; injection Hbs as <-.
    destruct (IH bs0 eq_refl) as (bs0' & -> & Hperm).
    exists (b :: bs0'); split; [reflexivity | constructor; assumption].
  - cbn [map_result] in *.
    destruct (f y) as [by_|e]; [| discriminate].
    destruct (f x) as [bx|e]; [| discriminate].
    destruct (map_result f l) as [bs0|e]; [| discriminate].
    cbn [rbind] in *; injection Hbs as <-.
    exists (bx :: by_ :: bs0); split; [reflexivity | constructor].
  - destruct (IH bs Hbs) as (bs' & Hbs' & Hperm).
    destruct (IH' bs' Hbs') as (bs'' & Hbs'' & Hperm').
    exists bs''; split; [assumption | eapply Permutation_trans; eassumption].
Qed.

Lemma py_max_perm (l l' : list (list Z)) :
  Permutation l l' -> py_max l = py_max l'.
Proof.
  intros Hperm.
  destruct l as [|t l].
  { apply Permutation_nil in Hperm; subst; reflexivity. }
  destruct l' as [|t' l'].
  { apply Permutation_sym, Permutation_nil in Hperm; discriminate. }
  destruct (py_max_is_maximum (t :: l)) as (m & -> & Hin & Hmax); [discriminate |].
  destruct (py_max_is_maximum (t' :: l')) as (m' & -> & Hin' & Hmax');
    [discriminate |].
  f_equal; apply lex_le_antisym.
  - apply Hmax'; eapply Permutation_in; eassumption.
  - apply Hmax; eapply Permutation_in; [apply Permutation_sym|]; eassumption.
Qed.

Lemma versions_parse (vs : list string) :
  Forall (parses limit text_of) vs ->
  exists parsed,
    map_result (parse_version limit text_of) (map PStr vs) = Ok parsed.
Proof.
  induction 1 as [|v vs [t Ht] _ [parsed IH]].
  - exists []; reflexivity.
  - exists (t :: parsed); cbn [map map_result]; rewrite Ht, IH; reflexivity.
Qed.

Lemma main_listed (w : world) (data : pydict) (vers : list pyval) :
  lock_loaded loads w data ->
  comp_versions_of data = Ok vers ->
  vers <> [] ->
  main loads limit text_of w
  = (version <- lift (parsed <- map_result (parse_version limit text_of) vers ;;
                      py_max parsed)%result ;;
     manifest <- lift (read_text (cargo_toml w)) ;;
     if tuple_richcompare Py_GE version MIN_VERSION
        && str_contains marker manifest
     then print (removal_message version) ;; io_ret 1
     else io_ret 0)%io.
Proof.
  intros Hw Hcv Hne.
  rewrite (main_loaded loads limit text_of w data Hw), Hcv, io_bind_lift_ok.
  destruct vers; [congruence | reflexivity].
Qed.

(** X7: when the versions listed for the watched dependency all parse, the
    order in which the lock file lists them does not matter: two lock files
    that list the same versions in different orders give the same run on the
    same manifest. *)
Theorem order_of_records_is_irrelevant
        (text text' : string) (data data' : pydict)
        (records records' : list (string * string)) (manifest : file_state) :
  loads text = Some data ->
  loads text' = Some data' ->
  lists_packages data records ->
  lists_packages data' records' ->
  Permutation (watched_versions records) (watched_versions records') ->
  Forall (parses limit text_of) (watched_versions records) ->
  run loads limit text_of
      {| lock_path := Contents text; cargo_toml := manifest |}
  = run loads limit text_of
        {| lock_path := Contents text'; cargo_toml := manifest |}.
Proof.
  intros Hloads Hloads' Hlists Hlists' Hperm Hparse.
  assert (Hw : lock_loaded loads
                 {| lock_path := Contents text; cargo_toml := manifest |} data)
    by (exists text; split; [reflexivity | assumption]).
  assert (Hw' : lock_loaded loads
                  {| lock_path := Contents text'; cargo_toml := manifest |} data')
    by (exists text'; split; [reflexivity | assumption]).
  pose proof (comp_versions_records data records Hlists) as Hcv.
  pose proof (comp_versions_records data' records' Hlists') as Hcv'.
  unfold run.
  destruct (watched_versions records) as [|v vs] eqn:Hvs.
  { apply Permutation_nil in Hperm. rewrite Hperm in Hcv'.
    rewrite (main_not_listed loads limit text_of _ data Hw Hcv).
    rewrite (main_not_listed loads limit text_of _ data' Hw' Hcv').
    reflexivity. }
  destruct (watched_versions records') as [|v' vs'] eqn:Hvs'.
  { apply Permutation_sym, Permutation_nil in Hperm; discriminate. }
  rewrite (main_listed _ data _ Hw Hcv) by discriminate.
  rewrite (main_listed _ data' _ Hw' Hcv') by discriminate.
  destruct (versions_parse _ Hparse) as [parsed Hparsed].
  destruct (map_result_perm (parse_version limit text_of) _ _
                            (Permutation_map PStr Hperm) parsed Hparsed)
    as (parsed' & Hparsed' & Hpp).
  rewrite Hparsed, Hparsed'; cbn [rbind lock_path cargo_toml].
  rewrite (py_max_perm parsed parsed' Hpp); reflexivity.
Qed.

End Order.

(** ** The marker *)

Lemma prefix_iff (p s : string) :
  String.prefix p s = true <-> exists rest, s = (p ++ rest)%string.
Proof.
  split; [| intros [rest ->]; apply prefix_app].
  revert s; induction p as [|c p IH]; intros s H.
  - exists s; reflexivity.
  - destruct s as [|c' s]; [discriminate |].
    cbn [String.prefix] in H.
    destruct (ascii_dec c c') as [<-|]; [| discriminate].
    destruct (IH s H) as [rest ->]; exists rest; reflexivity.
Qed.

(** [needle in hay] is: [hay] is some text, [needle], some text. *)
Lemma str_contains_iff (needle hay : string) :
  str_contains needle hay = true
  <-> exists before after, hay = (before ++ needle ++ after)%string.
Proof.
  split; [| intros (before & after & ->); apply str_contains_app].
  induction hay as [|c hay IH]; cbn [str_contains]; intros H;
    apply orb_true_iff in H; destruct H as [H|H].
  - apply prefix_iff in H; destruct H as [rest ->]; exists EmptyString, rest; reflexivity.
  - discriminate.
  - apply prefix_iff in H; destruct H as [rest ->]; exists EmptyString, rest; reflexivity.
  - destruct (IH H) as (before & after & ->).
    exists (String c before), after; reflexivity.
Qed.

Section Marker.

Variable loads : string -> option pydict.
Variable limit : nat.
Variable text_of : string -> string.

(** X8: the manifest is searched as plain text.  With the maximum version at
    or above the threshold, the shim is reported exactly when the marker
    occurs somewhere in the manifest, whatever stands before and after it: a
    comment or a longer name that holds the marker counts as well. *)
Theorem marker_anywhere_counts
        (text : string) (data : pydict) (records : list (string * string))
        (parsed : list (list Z)) (version : list Z) (manifest : string) :
  loads text = Some data ->
  lists_packages data records ->
  map_result (parse_version limit text_of) (map PStr (watched_versions records))
  = Ok parsed ->
  is_maximum version parsed ->
  lex_le MIN_VERSION version ->
  (run loads limit text_of
       {| lock_path := Contents text; cargo_toml := Contents manifest |}
   = {| stdout := [removal_message version]; stderr := Nothing; status := 1 |}
   <-> exists before after, manifest = (before ++ marker ++ after)%string)
  /\ (run loads limit text_of
          {| lock_path := Contents text; cargo_toml := Contents manifest |}
      = {| stdout := []; stderr := Nothing; status := 0 |}
      <-> ~ exists before after, manifest = (before ++ marker ++ after)%string).
Proof.
  intros Hloads Hlists Hparse Hmax Hge.
  rewrite (run_decides loads limit text_of text data records parsed version
                       manifest) by assumption.
  apply tuple_ge_iff in Hge; rewrite Hge; cbn [andb].
  rewrite <- str_contains_iff.
  destruct (str_contains marker manifest); split; split;
    try reflexivity; try discriminate; try congruence.
Qed.

End Marker.

(** ** Segments *)

Lemma str_split_nonempty (sep : ascii) (s : string) : str_split sep s <> [].
Proof.
  destruct s as [|c s]; cbn [str_split]; [discriminate |].
  destruct (Ascii.eqb c sep); [discriminate |].
  destruct (str_split sep s); discriminate.
Qed.

Lemma str_split_app (sep : ascii) (a b : string) :
  str_split sep (a ++ String sep b) = str_split sep a ++ str_split sep b.
Proof.
  induction a as [|c a IH]; cbn [append str_split].
  - rewrite Ascii.eqb_refl; reflexivity.
  - destruct (Ascii.eqb c sep); rewrite IH; [reflexivity |].
    destruct (str_split sep a) eqn:E; [| reflexivity].
    destruct (str_split_nonempty sep a E).
Qed.

Lemma str_split_length (sep : ascii) (s : string) :
  length (str_split sep s) = S (count_char sep s).
Proof.
  induction s as [|c s IH]; [reflexivity |].
  cbn [str_split count_char].
  destruct (Ascii.eqb c sep); cbn [length Nat.add].
  - rewrite IH; reflexivity.
  - destruct (str_split sep s); [discriminate | exact IH].
Qed.

Lemma space_not_digit (c : ascii) :
  is_int_space c = true -> is_digit c = false /\ Ascii.eqb c "_" = false.
Proof.
  intros H; split.
  - destruct (is_digit c) eqn:Hc; [| reflexivity].
    rewrite (digit_not_space c Hc) in H; discriminate.
  - destruct (Ascii.eqb_spec c "_") as [->|]; [discriminate | reflexivity].
Qed.

Lemma lstrip_spaces (ws s : string) :
  all_space ws = true -> lstrip (ws ++ s) = lstrip s.
Proof.
  induction ws as [|c ws IH]; [reflexivity |].
  cbn [all_space append lstrip]; intros H.
  apply andb_true_iff in H; destruct H as [Hc Hws].
  rewrite Hc; auto.
Qed.

Lemma lstrip_all_space (ws : string) :
  all_space ws = true -> lstrip ws = EmptyString.
Proof.
  induction ws as [|c ws IH]; [reflexivity |].
  cbn [all_space lstrip]; intros H.
  apply andb_true_iff in H; destruct H as [Hc Hws].
  rewrite Hc; auto.
Qed.

(** The scan of digits stops at the white space after them. *)
Lemma scan_digits_spaces (d ws : string) (acc : Z) (n : nat) :
  all_digits d = true ->
  all_space ws = true ->
  scan_digits (d ++ ws) false acc n
  = Some (acc * 10 ^ Z.of_nat (String.length d) + number_of d,
          (n + String.length d)%nat, ws).
Proof.
  revert acc n; induction d as [|c r IH]; intros acc n Hd Hws.
  - cbn [append String.length number_of].
    rewrite Nat.add_0_r, Z.pow_0_r, Z.mul_1_r, Z.add_0_r.
    destruct ws as [|c ws]; [reflexivity |].
    cbn [all_space] in Hws; apply andb_true_iff in Hws; destruct Hws as [Hc _].
    destruct (space_not_digit c Hc) as [Hdigit Hunderscore].
    cbn [scan_digits]; rewrite Hdigit, Hunderscore; reflexivity.
  - cbn [all_digits] in Hd. apply andb_true_iff in Hd; destruct Hd as [Hc Hr].
    cbn [append scan_digits String.length number_of]. rewrite Hc, (IH _ _ Hr Hws).
    rewrite Nat2Z.inj_succ, Z.pow_succ_r by lia.
    do 3 f_equal; [ring | lia].
Qed.

Section Segments.

Variable limit : nat.
Variable text_of : string -> string.

Lemma py_int_body (negative : bool) (s d ws' : string) :
  take_sign (lstrip s) = (negative, (d ++ ws')%string) ->
  all_space ws' = true ->
  is_number d = true ->
  exceeds_limit limit (String.length d) = false ->
  py_int limit text_of s
  = Ok (if negative then - number_of d else number_of d).
Proof.
  intros Hsign Hws' Hd Hfit.
  destruct (is_number_inv d Hd) as (c & r & -> & Hc & Hall).
  unfold py_int; rewrite Hsign.
  cbn [append]; rewrite (digit_starts c _ Hc).
  change (String c (r ++ ws')) with (String c r ++ ws')%string.
  rewrite (scan_digits_spaces _ ws' 0 0%nat Hall Hws').
  cbn [Nat.add]; rewrite Hfit, (lstrip_all_space ws' Hws').
  destruct negative; reflexivity.
Qed.

(** X9: [int], as [parse_version] applies it to each segment, skips white
    space around the digits and takes a sign in front of them: a segment
    such as " 4 " or "+4" is read as 4, and " -4 " as -4. *)
Theorem segments_may_be_padded (ws ws' d : string) :
  all_space ws = true ->
  all_space ws' = true ->
  is_number d = true ->
  exceeds_limit limit (String.length d) = false ->
  py_int limit text_of (ws ++ d ++ ws') = Ok (number_of d)
  /\ py_int limit text_of (ws ++ String "+" d ++ ws') = Ok (number_of d)
  /\ py_int limit text_of (ws ++ String "-" d ++ ws') = Ok (- number_of d).
Proof.
  intros Hws Hws' Hd Hfit.
  destruct (is_number_inv d Hd) as (c & r & Heq & Hc & _).
  repeat split.
  - apply (py_int_body false _ d ws'); try assumption.
    rewrite (lstrip_spaces ws _ Hws); subst d; cbn [append lstrip].
    rewrite (digit_not_space c Hc); apply digit_no_sign; assumption.
  - apply (py_int_body false _ d ws'); try assumption.
    rewrite (lstrip_spaces ws _ Hws); reflexivity.
  - apply (py_int_body true _ d ws'); try assumption.
    rewrite (lstrip_spaces ws _ Hws); reflexivity.
Qed.

(** X10: a version string with an empty segment never parses: the empty
    string, a string that ends or starts with a dot, and a string with two
    dots in a row all end the run with the message of [parse_version]. *)
Theorem empty_segment_is_fatal (v a b : string) :
  v = EmptyString \/ v = (a ++ ".")%string \/ v = String "." b
  \/ v = (a ++ ".." ++ b)%string ->
  exists seg,
    parse_version limit text_of (PStr v)
    = Raise (SystemExit (parse_error_message v (text_of seg))).
Proof.
  intros Hv.
  assert (Hin : In EmptyString (str_split "." v)).
  { destruct Hv as [-> | [-> | [-> | ->]]].
    - left; reflexivity.
    - rewrite str_split_app; apply in_or_app; right; left; reflexivity.
    - left; reflexivity.
    - cbn [append]. rewrite str_split_app; apply in_or_app; right.
      left; reflexivity. }
  destruct (parse_version_bad_segment limit text_of v EmptyString Hin) as [e He].
  { intros z; discriminate. }
  destruct (parse_version_error limit text_of v e He)
    as (pre & seg & post & _ & _ & _ & ->).
  exists seg; assumption.
Qed.

(** X11: a parsed version has one integer for each dot of the string, and
    one more: it is never the empty tuple. *)
Theorem parsed_version_length (s : string) (t : list Z) :
  parse_version limit text_of (PStr s) = Ok t ->
  length t = S (count_char "." s) /\ t <> [].
Proof.
  intros H; apply parse_version_ok_iff, map_result_ok_length in H.
  rewrite str_split_length in H; split; [assumption |].
  destruct t; [discriminate | discriminate].
Qed.

End Segments.

(** ** The text of a version *)

Lemma uint_digits (d : Decimal.uint) :
  all_digits (NilEmpty.string_of_uint d) = true.
Proof. induction d; cbn [NilEmpty.string_of_uint all_digits]; auto. Qed.

Lemma of_uint_acc_number (d : Decimal.uint) (acc : positive) :
  Z.pos (Pos.of_uint_acc d acc)
  = Z.pos acc * 10 ^ Z.of_nat (String.length (NilEmpty.string_of_uint d))
    + number_of (NilEmpty.string_of_uint d).
Proof.
  revert acc; induction d; intros acc;
    cbn [Pos.of_uint_acc NilEmpty.string_of_uint String.length number_of];
    try (rewrite IHd, Nat2Z.inj_succ, Z.pow_succ_r by lia;
         rewrite ?Pos2Z.inj_add, Pos2Z.inj_mul;
         change (digit_value "0") with 0; change (digit_value "1") with 1;
         change (digit_value "2") with 2; change (digit_value "3") with 3;
         change (digit_value "4") with 4; change (digit_value "5") with 5;
         change (digit_value "6") with 6; change (digit_value "7") with 7;
         change (digit_value "8") with 8; change (digit_value "9") with 9;
         lia).
  cbn. lia.
Qed.

Lemma of_uint_number (d : Decimal.uint) :
  Z.of_N (Pos.of_uint d) = number_of (NilEmpty.string_of_uint d).
Proof.
  induction d;
    cbn [Pos.of_uint NilEmpty.string_of_uint number_of];
    try (rewrite N2Z.inj_pos, of_uint_acc_number; 
         change (digit_value "1") with 1;
         change (digit_value "2") with 2; change (digit_value "3") with 3;
         change (digit_value "4") with 4; change (digit_value "5") with 5;
         change (digit_value "6") with 6; change (digit_value "7") with 7;
         change (digit_value "8") with 8; change (digit_value "9") with 9;
         lia).
  - reflexivity.
  - rewrite IHd. change (digit_value "0") with 0. lia.
Qed.

Lemma digit_value_bounds (c : ascii) :
  is_digit c = true -> 0 <= digit_value c <= 9.
Proof.
  unfold is_digit, digit_value; intros H.
  apply andb_true_iff in H; destruct H as [Hlo Hhi].
  apply Nat.leb_le in Hlo, Hhi; lia.
Qed.

Lemma number_of_bounds (s : string) :
  all_digits s = true ->
  0 <= number_of s < 10 ^ Z.of_nat (String.length s).
Proof.
  induction s as [|c r IH]; cbn [all_digits number_of String.length]; intros H.
  - cbn; lia.
  - apply andb_true_iff in H; destruct H as [Hc Hr].
    pose proof (digit_value_bounds c Hc). specialize (IH Hr).
    rewrite Nat2Z.inj_succ, Z.pow_succ_r by lia. nia.
Qed.

Lemma scan_digits_bound (s : string) (prev : bool) (acc : Z) (n : nat)
      (v : Z) (n' : nat) (rest : string) :
  scan_digits s prev acc n = Some (v, n', rest) ->
  0 <= acc < 10 ^ Z.of_nat n ->
  0 <= v < 10 ^ Z.of_nat n'.
Proof.
  revert prev acc n; induction s as [|c r IH]; intros prev acc n;
    cbn [scan_digits].
  - destruct prev; [discriminate |]. intros [= <- <- <-]; trivial.
  - destruct (is_digit c) eqn:Hc.
    + intros H Hacc; apply (IH _ _ _ H).
      pose proof (digit_value_bounds c Hc).
      rewrite Nat2Z.inj_succ, Z.pow_succ_r by lia. lia.
    + destruct (Ascii.eqb c "_").
      * destruct prev; [discriminate | apply IH].
      * destruct prev; [discriminate |]. intros [= <- <- <-]; trivial.
Qed.

Section RoundTrip.

Variable limit : nat.
Variable text_of : string -> string.

Lemma exceeds_limit_mono (m n : nat) :
  (m <= n)%nat -> exceeds_limit limit n = false -> exceeds_limit limit m = false.
Proof.
  unfold exceeds_limit; intros Hmn H.
  apply andb_false_iff in H. apply andb_false_iff.
  destruct H as [H|H]; [apply andb_false_iff in H; destruct H as [H|H] |].
  - left; apply andb_false_iff; left. apply Nat.ltb_ge in H; apply Nat.ltb_ge; lia.
  - left; apply andb_false_iff; right; assumption.
  - right. apply Nat.ltb_ge in H; apply Nat.ltb_ge; lia.
Qed.

(** What [int] returns has no more digits than it read. *)
Lemma py_int_bound (s : string) (z : Z) :
  py_int limit text_of s = Ok z ->
  exists n, exceeds_limit limit n = false /\ Z.abs z < 10 ^ Z.of_nat n.
Proof.
  unfold py_int.
  destruct (take_sign (lstrip s)) as [negative body].
  destruct (starts_with_underscore body); [discriminate |].
  destruct (scan_digits body false 0 0%nat) as [[[magnitude digits] rest]|] eqn:Hscan;
    [| discriminate].
  destruct (digits =? 0)%nat; [discriminate |].
  destruct (exceeds_limit limit digits) eqn:Hfit; [discriminate |].
  destruct (lstrip rest); [| discriminate].
  intros [= <-]. exists digits; split; [assumption |].
  apply scan_digits_bound in Hscan; [| cbn; lia].
  destruct negative; lia.
Qed.

Lemma digits_of_number (p : positive) :
  is_number (digits_of p) = true /\ number_of (digits_of p) = Z.pos p.
Proof.
  unfold digits_of; split.
  - unfold is_number. rewrite uint_digits, andb_true_r.
    pose proof (DecimalPos.Unsigned.to_uint_nonnil p) as Hnil.
    destruct (Pos.to_uint p); try reflexivity. congruence.
  - rewrite <- of_uint_number, DecimalPos.Unsigned.of_to; reflexivity.
Qed.

Lemma str_of_int_pos (p : positive) : str_of_int (Z.pos p) = digits_of p.
Proof.
  unfold str_of_int, digits_of; cbn [Z.to_int NilZero.string_of_int].
  unfold NilZero.string_of_uint.
  pose proof (DecimalPos.Unsigned.to_uint_nonnil p) as Hnil.
  destruct (Pos.to_uint p); try reflexivity. congruence.
Qed.

Lemma str_of_int_neg (p : positive) :
  str_of_int (Z.neg p) = String "-" (digits_of p).
Proof.
  unfold str_of_int; cbn [Z.to_int NilZero.string_of_int].
  f_equal. unfold NilZero.string_of_uint, digits_of.
  pose proof (DecimalPos.Unsigned.to_uint_nonnil p) as Hnil.
  destruct (Pos.to_uint p); try reflexivity. congruence.
Qed.

Lemma py_int_str_of_int (z : Z) :
  exceeds_limit limit (String.length (str_of_int (Z.abs z))) = false ->
  py_int limit text_of (str_of_int z) = Ok z.
Proof.
  destruct z as [|p|p]; cbn [Z.abs].
  - intros _; reflexivity.
  - rewrite str_of_int_pos; intros Hfit.
    destruct (digits_of_number p) as [Hnum Hval].
    rewrite (py_int_number limit text_of _ Hnum Hfit), Hval; reflexivity.
  - rewrite str_of_int_pos, str_of_int_neg; intros Hfit.
    destruct (digits_of_number p) as [Hnum Hval].
    rewrite (py_int_negative limit text_of _ Hnum Hfit), Hval; reflexivity.
Qed.

Lemma to_uint_normal (p : positive) :
  Pos.to_uint p = Decimal.unorm (Pos.to_uint p).
Proof.
  rewrite <- (DecimalPos.Unsigned.to_of (Pos.to_uint p)).
  rewrite DecimalPos.Unsigned.of_to; reflexivity.
Qed.

Lemma digits_of_head (p : positive) :
  exists c r,
    digits_of p = String c r /\ 1 <= digit_value c /\ all_digits r = true.
Proof.
  unfold digits_of.
  pose proof (to_uint_normal p) as Hnorm.
  pose proof (DecimalPos.Unsigned.to_uint_nonnil p) as Hnil.
  pose proof (DecimalPos.Unsigned.to_uint_nonzero p) as Hzero.
  destruct (Pos.to_uint p) as [|l|l|l|l|l|l|l|l|l|l];
    [congruence | | | | | | | | | |];
    cbn [NilEmpty.string_of_uint];
    try (eexists _, _; split; [reflexivity |];
         split; [vm_compute; intro; discriminate | apply uint_digits]).
  exfalso. rewrite DecimalFacts.unorm_D0 in Hnorm. unfold Decimal.unorm in Hnorm.
  destruct (Decimal.nzhead l) eqn:Hl; try discriminate Hnorm.
  - injection Hnorm as ->. apply Hzero; reflexivity.
  - apply (DecimalFacts.nzhead_nonzero _ _ Hl).
Qed.

Lemma digits_of_length (p : positive) (n : nat) :
  Z.pos p < 10 ^ Z.of_nat n -> (String.length (digits_of p) <= n)%nat.
Proof.
  intros Hlt.
  destruct (digits_of_head p) as (c & r & Heq & Hc & Hr).
  destruct (digits_of_number p) as [_ Hval].
  rewrite Heq in Hval |- *; cbn [number_of String.length] in *.
  pose proof (number_of_bounds r Hr) as Hbound.
  assert (Hpow : 10 ^ Z.of_nat (String.length r) < 10 ^ Z.of_nat n) by nia.
  apply Z.pow_lt_mono_r_iff in Hpow; lia.
Qed.

(** [int] reads the text of an integer it has returned as that integer. *)
Lemma py_int_reparse (s : string) (z : Z) :
  py_int limit text_of s = Ok z ->
  py_int limit text_of (str_of_int z) = Ok z.
Proof.
  intros H; apply py_int_str_of_int.
  destruct (py_int_bound s z H) as (n & Hfit & Hlt).
  destruct (Z.abs z) as [|p|p] eqn:Habs.
  - reflexivity.
  - rewrite str_of_int_pos.
    apply exceeds_limit_mono with n; [apply digits_of_length |]; assumption.
  - lia.
Qed.

Lemma str_split_none (sep : ascii) (s : string) :
  count_char sep s = 0%nat -> str_split sep s = [s].
Proof.
  induction s as [|c s IH]; [reflexivity |].
  cbn [count_char str_split].
  destruct (Ascii.eqb c sep); [discriminate |].
  cbn [Nat.add]; intros H; rewrite (IH H); reflexivity.
Qed.

Lemma str_split_join (parts : list string) :
  parts <> [] ->
  Forall (fun p => count_char "." p = 0%nat) parts ->
  str_split "." (str_join "." parts) = parts.
Proof.
  intros Hne Hall; induction Hall as [|p parts Hp Hall IH]; [congruence |].
  destruct parts as [|q parts].
  - apply str_split_none; assumption.
  - change (str_join "." (p :: q :: parts))
      with (p ++ String "." (str_join "." (q :: parts)))%string.
    rewrite str_split_app, (str_split_none _ _ Hp), IH by discriminate.
    reflexivity.
Qed.

Lemma digits_no_dot (s : string) :
  all_digits s = true -> count_char "." s = 0%nat.
Proof.
  induction s as [|c s IH]; [reflexivity |].
  cbn [all_digits count_char]; intros H.
  apply andb_true_iff in H; destruct H as [Hc Hs].
  rewrite (digit_not_dot c Hc), (IH Hs); reflexivity.
Qed.

Lemma str_of_int_no_dot (z : Z) : count_char "." (str_of_int z) = 0%nat.
Proof.
  destruct z as [|p|p].
  - reflexivity.
  - rewrite str_of_int_pos. apply digits_no_dot, uint_digits.
  - rewrite str_of_int_neg. cbn [count_char].
    change (Ascii.eqb "-" ".") with false.
    apply digits_no_dot, uint_digits.
Qed.

(** X12: the version text of the removal message can be read back: for every
    version string that parses, the text made from its tuple parses to the
    same tuple. *)
Theorem shown_version_parses_back (s : string) (t : list Z) :
  parse_version limit text_of (PStr s) = Ok t ->
  parse_version limit text_of (PStr (version_text t)) = Ok t.
Proof.
  intros H.
  assert (Hne : t <> []).
  { apply parse_version_ok_iff, map_result_ok_length in H.
    rewrite str_split_length in H. destruct t; discriminate. }
  apply parse_version_ok_iff in H. apply parse_version_ok_iff.
  unfold version_text. rewrite str_split_join.
  - apply map_result_ok_iff in H. apply map_result_ok_iff.
    clear Hne. induction H as [|seg z segs t Hz _ IH]; cbn [map]; constructor.
    + apply py_int_reparse with seg; assumption.
    + assumption.
  - destruct t; [congruence | discriminate].
  - apply Forall_forall; intros p Hp. apply in_map_iff in Hp.
    destruct Hp as (z & <- & _). apply str_of_int_no_dot.
Qed.


Lemma digits_uint (s : string) :
  all_digits s = true -> exists d, NilEmpty.string_of_uint d = s.
Proof.
  induction s as [|c s IH]; cbn [all_digits]; intros H.
  - exists Decimal.Nil; reflexivity.
  - apply andb_true_iff in H; destruct H as [Hc Hs].
    destruct (IH Hs) as [d <-].
    destruct c as [[] [] [] [] [] [] [] []]; try discriminate Hc;
      first [ exists (Decimal.D0 d); reflexivity
            | exists (Decimal.D1 d); reflexivity
            | exists (Decimal.D2 d); reflexivity
            | exists (Decimal.D3 d); reflexivity
            | exists (Decimal.D4 d); reflexivity
            | exists (Decimal.D5 d); reflexivity
            | exists (Decimal.D6 d); reflexivity
            | exists (Decimal.D7 d); reflexivity
            | exists (Decimal.D8 d); reflexivity
            | exists (Decimal.D9 d); reflexivity ].
Qed.

Lemma canonical_str_of_int (s : string) :
  canonical s = true -> str_of_int (number_of s) = s.
Proof.
  unfold canonical, is_number; intros H.
  apply andb_true_iff in H; destruct H as [Hnum Hcanon].
  apply andb_true_iff in Hnum; destruct Hnum as [Hne Hdigits].
  destruct (digits_uint s Hdigits) as [d <-].
  rewrite <- of_uint_number.
  change (Z.of_N (Pos.of_uint d)) with (Z.of_int (Decimal.Pos d)).
  unfold str_of_int. rewrite DecimalZ.to_of.
  cbn [Decimal.norm NilZero.string_of_int].
  assert (Hnorm : Decimal.unorm d = d).
  { destruct d; try reflexivity; [vm_compute in Hne; discriminate Hne |].
    cbn [NilEmpty.string_of_uint] in Hcanon.
    apply orb_true_iff in Hcanon; destruct Hcanon as [H0|H0].
    - apply String.eqb_eq in H0. injection H0 as H0.
      destruct d; try discriminate H0. reflexivity.
    - cbn in H0. destruct (NilEmpty.string_of_uint d); discriminate H0. }
  rewrite Hnorm. unfold NilZero.string_of_uint.
  destruct d; try reflexivity. vm_compute in Hne; discriminate Hne.
Qed.

Lemma str_join_split (v : string) : str_join "." (str_split "." v) = v.
Proof.
  induction v as [|c v IH]; [reflexivity |].
  cbn [str_split].
  destruct (Ascii.eqb_spec c ".") as [->|Hc].
  - pose proof (str_split_nonempty "." v) as Hne.
    destruct (str_split "." v) as [|h t]; [congruence |].
    change (str_join "." (EmptyString :: h :: t))
      with (String "." (str_join "." (h :: t))).
    rewrite IH; reflexivity.
  - pose proof (str_split_nonempty "." v) as Hne.
    destruct (str_split "." v) as [|h t]; [congruence |].
    rewrite <- IH. destruct t; reflexivity.
Qed.

(** X13: a version written the usual way is shown as it is written: when
    every segment is a non-negative integer without a zero in front and
    within the limit of [int], the string parses and the removal message
    names the version by that very string. *)
Theorem canonical_version_is_shown (v : string) :
  canonical_version v = true ->
  within_limit limit v = true ->
  exists version,
    parse_version limit text_of (PStr v) = Ok version
    /\ version_text version = v
    /\ removal_message version
       = ("component-runtime has reached " ++ v
          ++ " but greentic-types-compat is still present." ++ nl
          ++ "Please drop the compat shim and migrate to greentic-types 0.3+ throughout.")%string.
Proof.
  intros Hcanon Hfit.
  assert (Hnum : dotted_numeric v = true).
  { unfold dotted_numeric, canonical_version in *.
    rewrite forallb_forall in *; intros seg Hseg.
    specialize (Hcanon seg Hseg); unfold canonical in Hcanon.
    apply andb_true_iff in Hcanon; apply Hcanon. }
  assert (Htext : version_text (numbers v) = v).
  { unfold version_text, numbers. rewrite map_map.
    rewrite <- (str_join_split v) at 2. f_equal.
    unfold canonical_version in Hcanon; rewrite forallb_forall in Hcanon.
    rewrite <- (map_id (str_split "." v)) at 2.
    apply map_ext_in; intros seg Hseg.
    apply canonical_str_of_int, Hcanon; assumption. }
  exists (numbers v); split; [apply parse_version_numbers; assumption |].
  split; [assumption |].
  unfold removal_message. fold (version_text (numbers v)). rewrite Htext.
  reflexivity.
Qed.

End RoundTrip.

(** ** More records *)

Lemma map_result_ok_from {A B : Type} (f : A -> result B) (l : list A)
      (bs : list B) (b : B) :
  map_result f l = Ok bs -> In b bs -> exists a, In a l /\ f a = Ok b.
Proof.
  intros H; apply map_result_ok_iff in H.
  induction H as [|a' b' l' bs' Hab _ IH]; intros Hin.
  - destruct Hin.
  - destruct Hin as [<-|Hin].
    + exists a'; split; [left; reflexivity | assumption].
    + destruct (IH Hin) as (a & Ha & Hfa); exists a; split; [right|]; assumption.
Qed.

Section MoreRecords.

Variable loads : string -> option pydict.
Variable limit : nat.
Variable text_of : string -> string.

(** X14: listing more versions of the watched dependency never takes a
    report back: when a lock file is reported with status 1, every lock file
    that lists at least the same versions, all of them parsable, is reported
    too on the same manifest. *)
Theorem more_versions_keep_the_report
        (text text' : string) (data data' : pydict)
        (records records' : list (string * string))
        (parsed parsed' : list (list Z)) (manifest : string) :
  loads text = Some data ->
  loads text' = Some data' ->
  lists_packages data records ->
  lists_packages data' records' ->
  incl (watched_versions records) (watched_versions records') ->
  map_result (parse_version limit text_of) (map PStr (watched_versions records))
  = Ok parsed ->
  map_result (parse_version limit text_of) (map PStr (watched_versions records'))
  = Ok parsed' ->
  status (run loads limit text_of
              {| lock_path := Contents text; cargo_toml := Contents manifest |})
  = 1 ->
  status (run loads limit text_of
              {| lock_path := Contents text'; cargo_toml := Contents manifest |})
  = 1.
Proof.
  intros Hloads Hloads' Hlists Hlists' Hincl Hparse Hparse' Hstatus.
  destruct parsed as [|t parsed].
  { exfalso. apply map_result_ok_length in Hparse; rewrite length_map in Hparse.
    destruct (watched_versions records) eqn:Hvs; [| discriminate].
    unfold run in Hstatus.
    rewrite (main_not_listed loads limit text_of _ data) in Hstatus.
    - discriminate.
    - exists text; split; [reflexivity | assumption].
    - rewrite (comp_versions_records data records Hlists), Hvs; reflexivity. }
  destruct (py_max_is_maximum (t :: parsed)) as (m & _ & Hmax); [discriminate |].
  rewrite (run_decides loads limit text_of text data records (t :: parsed) m
                       manifest) in Hstatus by assumption.
  destruct (tuple_richcompare Py_GE m MIN_VERSION && str_contains marker manifest)
    eqn:Hcond; [| discriminate].
  apply andb_true_iff in Hcond; destruct Hcond as [Hge Hmarker].
  apply tuple_ge_iff in Hge.
  destruct Hmax as [Hin Hmax].
  destruct (map_result_ok_from _ _ _ _ Hparse Hin) as (a & Ha & Hfa).
  apply in_map_iff in Ha; destruct Ha as (v & <- & Hv).
  destruct (map_result_ok_each _ _ _ (PStr v) Hparse'
                               (in_map PStr _ _ (Hincl v Hv)))
    as (m0 & Hm0 & Hin').
  assert (m0 = m) by congruence; subst m0.
  destruct (py_max_is_maximum parsed') as (m' & _ & Hmax').
  { intros ->; destruct Hin'. }
  rewrite (run_decides loads limit text_of text' data' records' parsed' m'
                       manifest) by assumption.
  assert (Hge' : tuple_richcompare Py_GE m' MIN_VERSION = true).
  { apply tuple_ge_iff, lex_le_trans with m; [assumption |].
    apply Hmax'; assumption. }
  rewrite Hge', Hmarker; reflexivity.
Qed.

End MoreRecords.

(** ** The further properties on sample inputs *)

Lemma broken_lock_file_aborts_witness :
  run more_loads default_max_str_digits invalid_literal
      {| lock_path := Contents "not a lock file"; cargo_toml := Missing |}
  = aborted TOMLDecodeError.
Proof.
  apply (proj2 (broken_lock_file_aborts
                  more_loads default_max_str_digits invalid_literal Missing)).
  reflexivity.
Defined.

Lemma record_without_version_aborts_witness :
  run more_loads default_max_str_digits invalid_literal
      {| lock_path := Contents (entries_text entries_without_version);
         cargo_toml := Missing |}
  = aborted (KeyError "version").
Proof.
  apply (record_without_version_aborts
           more_loads default_max_str_digits invalid_literal
           (entries_text entries_without_version)
           (entries_data entries_without_version)
           entries_without_version
           [("name"%string, PStr "component-runtime")]).
  - reflexivity.
  - reflexivity.
  - right; left; reflexivity.
  - reflexivity.
  - reflexivity.
Defined.

Lemma only_watched_entries_matter_witness :
  run more_loads default_max_str_digits invalid_literal
      {| lock_path := Contents (entries_text entries_with_odd_neighbours);
         cargo_toml := Contents manifest_with_shim |}
  = run more_loads default_max_str_digits invalid_literal
        {| lock_path := Contents (entries_text entries_plain);
           cargo_toml := Contents manifest_with_shim |}.
Proof.
  apply (only_watched_entries_matter
           more_loads default_max_str_digits invalid_literal
           (entries_text entries_with_odd_neighbours)
           (entries_text entries_plain)
           (entries_data entries_with_odd_neighbours)
           (entries_data entries_plain)
           entries_with_odd_neighbours entries_plain);
    reflexivity.
Defined.

Lemma version_that_is_not_text_aborts_witness :
  run more_loads default_max_str_digits invalid_literal
      {| lock_path := Contents (entries_text entries_with_number);
         cargo_toml := Contents manifest_with_shim |}
  = aborted AttributeError.
Proof.
  apply (version_that_is_not_text_aborts
           more_loads default_max_str_digits invalid_literal
           (entries_text entries_with_number)
           (entries_data entries_with_number)
           [PStr "0.3.9"] [] (PInt 4)).
  - reflexivity.
  - reflexivity.
  - constructor; [exists [0; 3; 9]; reflexivity | constructor].
  - discriminate.
Defined.

Lemma order_of_records_is_irrelevant_witness :
  run more_loads default_max_str_digits invalid_literal
      {| lock_path := Contents (lock_text records_double);
         cargo_toml := Contents manifest_with_shim |}
  = run more_loads default_max_str_digits invalid_literal
        {| lock_path := Contents (lock_text records_reversed);
           cargo_toml := Contents manifest_with_shim |}.
Proof.
  apply (order_of_records_is_irrelevant
           more_loads default_max_str_digits invalid_literal
           (lock_text records_double) (lock_text records_reversed)
           (lock_data records_double) (lock_data records_reversed)
           records_double records_reversed).
  - reflexivity.
  - reflexivity.
  - apply lock_data_lists.
  - apply lock_data_lists.
  - apply perm_swap.
  - constructor; [exists [0; 3; 9]; reflexivity |].
    constructor; [exists [0; 4; 1]; reflexivity | constructor].
Defined.

Lemma marker_anywhere_counts_witness :
  (run sample_loads default_max_str_digits invalid_literal
       (sample_world records_single (Contents manifest_with_comment))
   = {| stdout := [removal_message [0; 4; 0]]; stderr := Nothing; status := 1 |}
   <-> exists before after,
         manifest_with_comment = (before ++ marker ++ after)%string)
  /\ (run sample_loads default_max_str_digits invalid_literal
          (sample_world records_single (Contents manifest_with_comment))
      = {| stdout := []; stderr := Nothing; status := 0 |}
      <-> ~ exists before after,
            manifest_with_comment = (before ++ marker ++ after)%string).
Proof.
  apply (marker_anywhere_counts
           sample_loads default_max_str_digits invalid_literal
           (lock_text records_single) (lock_data records_single)
           records_single [[0; 4; 0]] [0; 4; 0] manifest_with_comment).
  - reflexivity.
  - apply lock_data_lists.
  - reflexivity.
  - split; [left; reflexivity | intros t [<-|[]]; apply lex_le_refl].
  - apply lex_le_refl.
Defined.

Lemma segments_may_be_padded_witness :
  py_int default_max_str_digits invalid_literal " 4 " = Ok (number_of "4")
  /\ py_int default_max_str_digits invalid_literal " +4 " = Ok (number_of "4")
  /\ py_int default_max_str_digits invalid_literal " -4 "
     = Ok (- number_of "4").
Proof.
  apply (segments_may_be_padded default_max_str_digits invalid_literal
                                " "%string " "%string "4"%string);
    reflexivity.
Defined.

Lemma empty_segment_is_fatal_witness :
  exists seg,
    parse_version default_max_str_digits invalid_literal (PStr "0.4.")
    = Raise (SystemExit (parse_error_message "0.4." (invalid_literal seg))).
Proof.
  apply (empty_segment_is_fatal default_max_str_digits invalid_literal
                                "0.4."%string "0.4"%string EmptyString).
  right; left; reflexivity.
Defined.

Lemma parsed_version_length_witness :
  length [0; 4; 0] = S (count_char "." "0.4.0") /\ [0; 4; 0] <> [].
Proof.
  apply (parsed_version_length default_max_str_digits invalid_literal
                               "0.4.0"%string [0; 4; 0]).
  reflexivity.
Defined.

Lemma shown_version_parses_back_witness :
  parse_version default_max_str_digits invalid_literal
                (PStr (version_text [0; 40; 1]))
  = Ok [0; 40; 1].
Proof.
  apply (shown_version_parses_back default_max_str_digits invalid_literal
                                   "00.4_0. 1"%string [0; 40; 1]).
  reflexivity.
Defined.

Lemma canonical_version_is_shown_witness :
  exists version,
    parse_version default_max_str_digits invalid_literal (PStr "0.4.1")
    = Ok version
    /\ version_text version = "0.4.1"%string
    /\ removal_message version
       = ("component-runtime has reached " ++ "0.4.1"
          ++ " but greentic-types-compat is still present." ++ nl
          ++ "Please drop the compat shim and migrate to greentic-types 0.3+ throughout.")%string.
Proof.
  apply (canonical_version_is_shown default_max_str_digits invalid_literal
                                    "0.4.1"%string);
    reflexivity.
Defined.

Lemma more_versions_keep_the_report_witness :
  status (run more_loads default_max_str_digits invalid_literal
              {| lock_path := Contents (lock_text records_reversed);
                 cargo_toml := Contents manifest_with_shim |})
  = 1.
Proof.
  apply (more_versions_keep_the_report
           more_loads default_max_str_digits invalid_literal
           (lock_text records_double) (lock_text records_reversed)
           (lock_data records_double) (lock_data records_reversed)
           records_double records_reversed
           [[0; 3; 9]; [0; 4; 1]] [[0; 4; 1]; [0; 3; 9]] manifest_with_shim).
  - reflexivity.
  - reflexivity.
  - apply lock_data_lists.
  - apply lock_data_lists.
  - intros v [<-|[<-|[]]]; [right; left | left]; reflexivity.
  - reflexivity.
  - reflexivity.
  - reflexivity.
Defined.
